(** * The CAS output backend of the Swift frontend

    A shallow embedding of [lib/Frontend/CASOutputBackends.cpp]: the route
    table [OutputToInputMap], the per-input pending sets [OutputRefs], and
    the methods [initBackend], [createFileImpl], [storeImpl],
    [finalizeCacheKeysFor], [storeCachedDiagnostics] and [cloneImpl],
    followed by the properties of the backend that the design document
    states about them. *)

From stdpp Require Import base option list strings gmap sorting.
From Stdlib Require Import NArith ZArith Lia.

Open Scope string_scope.
Open Scope list_scope.
Set Warnings "-register-all".

(** ** External collaborators *)

(** [file_types::ID] is an enumeration over [uint8_t]; the backend orders
    two kinds with [<] on the enumerators. *)
Abbreviation ID := N (only parsing).

(** [clang::cas::CompileJobCacheResult::OutputKind], the three slots the
    backend fills when it emits a clang module. *)
Inductive ClangOutputKind := MainOutput | SerializedDiagnostics | Dependencies.

(** Modelled from the spec: the content store ([llvm::cas::ObjectStore]) and
    the objects the backend puts in it. A reference is content-derived and
    equal contents give equal references (section 6), so a reference is
    identified with the object it denotes. [Blob] is what
    [storeFromString] stores, [SwiftResult] and [ClangResult] are what the
    two [CompileJobCacheResult::Builder]s build from the outputs added to
    them, in the order they were added, [CacheKey] is the object of
    [createCompileJobCacheKeyForOutput], a function of the base key and the
    input index (section 4.5), and [Foreign] stands for an object made
    elsewhere, such as the base key. *)
Inductive ObjectRef :=
| Blob (Bytes : string)
| SwiftResult (Outputs : list (ID * ObjectRef))
| ClangResult (Outputs : list (ClangOutputKind * ObjectRef))
| CacheKey (BaseKey : ObjectRef) (InputIndex : nat)
| Foreign (Id : N).

(** Modelled from the spec: the state of the two shared services.
    [cas_objects] lists the objects stored so far and [cache_entries] the
    successful [put]s so far, oldest first. Both services may fail
    (section 6): [outcomes] scripts the calls still to come, [false] for a
    call that fails; once the script is used up every call succeeds. *)
Record World := mkWorld {
  cas_objects : list ObjectRef;
  cache_entries : list (ObjectRef * ObjectRef);
  outcomes : list bool
}.

(** Modelled from the spec: the job plan ([FrontendInputsAndOutputs]). An
    input has a main output path, empty when it has none, and the
    supplementary outputs that are set, each with its kind, in the order
    [forEachSetOutputAndType] visits them. *)
Record InputFile := mkInputFile {
  outputFilename : string;
  SupplementaryOutputs : list (string * ID)
}.

Record FrontendInputsAndOutputs := mkInputsAndOutputs {
  getAllInputs : list InputFile;
  getPrincipalOutputType : ID;
  getIndexOfFirstOutputProducingInput : nat
}.

(** [FrontendOptions::ActionType]; the backend only asks whether the action
    is [EmitPCM], so every other action is an opaque tag. *)
Inductive ActionType := EmitPCM | OtherAction (tag : N).

Definition isEmitPCM (a : ActionType) : bool :=
  match a with EmitPCM => true | OtherAction _ => false end.

(** ** Errors *)

(** What a method can end with besides success: an [llvm::Error] returned
    to the caller ([StoreError], [CacheWriteError]) or a fatal stop of a
    build with assertions, named after the design document's taxonomy:
    [RouteNotFound] is the assertion
    [ProducingInput != OutputToInputMap.end() && "Unknown output file"],
    [EncodeError] is
    [llvm_unreachable("Unexpected output when compiling clang module")],
    and [AssertionFailure] is any other assertion: the bounds check of
    [OutputRefs[InputIndex]] and ["Expect outputs for this input"]. A stop
    leaves the backend and the services as they are at that point. *)
Inductive Error :=
| RouteNotFound
| StoreError
| EncodeError
| CacheWriteError
| AssertionFailure (msg : string).

(** ** The backend object *)

(** [DenseMap<file_types::ID, ObjectRef>]: the entries with pairwise
    distinct keys. The order of the list is the order in which the map is
    iterated; in the model it is the order of insertion, and nothing below
    relies on which order it is. *)
Abbreviation DenseMap := (list (ID * ObjectRef)) (only parsing).

Definition dm_count (m : DenseMap) (k : ID) : bool :=
  existsb (λ e, N.eqb e.1 k) m.

Definition dm_find (m : DenseMap) (k : ID) : option ObjectRef :=
  snd <$> List.find (λ e, N.eqb e.1 k) m.

(** [DenseMap::insert]: the pair is added if the key is not in the map; a
    key that is in the map keeps its value. *)
Definition dm_insert (m : DenseMap) (k : ID) (v : ObjectRef) : DenseMap :=
  if dm_count m k then m else m ++ [(k, v)].

(** [StringMap::insert], with the same convention. *)
Definition sm_insert {V} (k : string) (v : V) (m : gmap string V)
  : gmap string V :=
  match m !! k with
  | Some _ => m
  | None => <[k := v]> m
  end.

Record Implementation := mkImpl {
  BaseKey : ObjectRef;
  InputsAndOutputs : FrontendInputsAndOutputs;
  Action : ActionType;
  (* Map from output path to the input index and output kind. *)
  OutputToInputMap : gmap string (nat * ID);
  (* A vector of output refs where the index is the input index. *)
  OutputRefs : list (list (ID * ObjectRef))
}.

Definition set_OutputRefs (refs : list (list (ID * ObjectRef)))
  (b : Implementation) : Implementation :=
  mkImpl (BaseKey b) (InputsAndOutputs b) (Action b) (OutputToInputMap b) refs.

(** ** Methods run on a backend and the shared services *)

Record Machine := mkMachine {
  this : Implementation;
  services : World
}.

Definition M (A : Type) : Type := Machine → (Error + A) * Machine.

Definition ret {A} (a : A) : M A := λ s, (inr a, s).
Definition fail {A} (e : Error) : M A := λ s, (inl e, s).
Definition bind {A B} (c : M A) (k : A → M B) : M B :=
  λ s, match c s with
       | (inr a, s') => k a s'
       | (inl e, s') => (inl e, s')
       end.

Declare Scope backend_scope.
Delimit Scope backend_scope with backend.
Notation "'let*' x ':=' c 'in' k" := (bind c (λ x, k))
  (at level 10, x pattern, c at level 100, k at level 200) : backend_scope.
Open Scope backend_scope.

Definition get_this : M Implementation := λ s, (inr (this s), s).
Definition put_OutputRefs (refs : list (list (ID * ObjectRef))) : M unit :=
  λ s, (inr (), mkMachine (set_OutputRefs refs (this s)) (services s)).

(** One call to a shared service: takes the next scripted outcome. *)
Definition next_outcome (w : World) : bool * World :=
  match outcomes w with
  | [] => (true, w)
  | ok :: rest => (ok, mkWorld (cas_objects w) (cache_entries w) rest)
  end.

(** The store after it accepted [o]; the cache after it accepted the entry
    [k] to [v]. *)
Definition stored (o : ObjectRef) (w : World) : World :=
  mkWorld (cas_objects w ++ [o]) (cache_entries w) (outcomes w).

Definition cached (k v : ObjectRef) (w : World) : World :=
  mkWorld (cas_objects w) (cache_entries w ++ [(k, v)]) (outcomes w).

(** [ObjectStore::store]: the object is in the store afterwards and its
    reference is returned, or the call fails and stores nothing. *)
Definition CAS_store (o : ObjectRef) : M ObjectRef :=
  λ s, let '(ok, w) := next_outcome (services s) in
       if ok then (inr o, mkMachine (this s) (stored o w))
       else (inl StoreError, mkMachine (this s) w).

(** [ActionCache::put]. *)
Definition Cache_put (k v : ObjectRef) : M unit :=
  λ s, let '(ok, w) := next_outcome (services s) in
       if ok then (inr (), mkMachine (this s) (cached k v w))
       else (inl CacheWriteError, mkMachine (this s) w).

Definition createCompileJobCacheKeyForOutput (Base : ObjectRef)
  (InputIndex : nat) : M ObjectRef :=
  CAS_store (CacheKey Base InputIndex).

(** [llvm::sort] with the comparator [LHS.first < RHS.first]. *)
Definition first_less (LHS RHS : ID * ObjectRef) : bool := (LHS.1 <? RHS.1)%N.

Fixpoint sort_insert (x : ID * ObjectRef) (l : list (ID * ObjectRef))
  : list (ID * ObjectRef) :=
  match l with
  | [] => [x]
  | y :: l' => if first_less x y then x :: l else y :: sort_insert x l'
  end.

Definition llvm_sort (l : list (ID * ObjectRef)) : list (ID * ObjectRef) :=
  foldr sort_insert [] l.

(** The output file handed to the client. [SwiftCASOutputFile] carries the
    path, the bytes written so far and what its [OnKeep] closure captured. *)
Inductive OutputFileImpl :=
| NullOutputFileImpl
| SwiftCASOutputFile (Path Bytes : string) (InputIndex : nat) (OutputType : ID).

(** The enumerators of [file_types::ID] that the backend names and the
    predicate of [swift/Basic/FileTypes.h] that it calls; their values are
    fixed outside the backend, which is read for any choice of them. *)
Class FileTypes := {
  TY_ClangModuleFile : ID;
  TY_CachedDiagnostics : ID;
  TY_Dependencies : ID;
  isProducedFromDiagnostics : ID → bool
}.

Section Backend.

Context `{FileTypes}.

(** *** [initBackend] *)

Definition addInput (mainOutputType : ID) (Input : InputFile) (Index : nat)
  (map : gmap string (nat * ID)) : gmap string (nat * ID) :=
  let map1 :=
    if decide (outputFilename Input = "") then map
    else sm_insert (outputFilename Input) (Index, mainOutputType) map in
  foldl (λ m out,
           if isProducedFromDiagnostics out.2 then m
           else sm_insert out.1 (Index, out.2) m)
        map1 (SupplementaryOutputs Input).

(** The loop [for (idx = 0; idx < getAllInputs().size(); ++idx)]. *)
Fixpoint addInputs (mainOutputType : ID) (inputs : list InputFile)
  (idx : nat) (map : gmap string (nat * ID)) : gmap string (nat * ID) :=
  match inputs with
  | [] => map
  | Input :: rest =>
      addInputs mainOutputType rest (S idx)
        (addInput mainOutputType Input idx map)
  end.

Definition initBackend (IO : FrontendInputsAndOutputs)
  : gmap string (nat * ID) * list (list (ID * ObjectRef)) :=
  let map := addInputs (getPrincipalOutputType IO) (getAllInputs IO) 0 ∅ in
  (sm_insert "<cached-diagnostics>"
     (getIndexOfFirstOutputProducingInput IO, TY_CachedDiagnostics) map,
   replicate (length (getAllInputs IO)) []).

(** The constructor of [Implementation]. *)
Definition newImplementation (Key : ObjectRef)
  (IO : FrontendInputsAndOutputs) (Act : ActionType) : Implementation :=
  let '(map, refs) := initBackend IO in mkImpl Key IO Act map refs.

(** *** [finalizeCacheKeysFor] *)

(** The test of [llvm::all_of] over the route table. *)
Definition allOutputsEmitted (map : gmap string (nat * ID))
  (InputIndex : nat) (ProducedOutputs : list (ID * ObjectRef)) : bool :=
  forallb (λ E, negb (E.2.1 =? InputIndex)%nat
                || dm_count ProducedOutputs E.2.2)
          (map_to_list map).

(** The loop that fills the clang builder; [None] when it reaches
    [llvm_unreachable]. *)
Fixpoint clangOutputs (OutputsForInput : list (ID * ObjectRef))
  : option (list (ClangOutputKind * ObjectRef)) :=
  match OutputsForInput with
  | [] => Some []
  | Outs :: rest =>
      let added K := cons (K, Outs.2) <$> clangOutputs rest in
      if (Outs.1 =? TY_ClangModuleFile)%N then added MainOutput
      else if (Outs.1 =? TY_CachedDiagnostics)%N
           then added SerializedDiagnostics
      else if (Outs.1 =? TY_Dependencies)%N then added Dependencies
      else None
  end.

Definition finalizeCacheKeysFor (InputIndex : nat) : M unit :=
  let* b := get_this in
  match OutputRefs b !! InputIndex with
  | None => fail (AssertionFailure "idx < size()")
  | Some ProducedOutputs =>
      if decide (ProducedOutputs = [])
      then fail (AssertionFailure "Expect outputs for this input")
      else
      (* If not all outputs for the input are emitted, return. *)
      if negb (allOutputsEmitted (OutputToInputMap b) InputIndex
                 ProducedOutputs)
      then ret ()
      else
      (* Sort to a stable ordering for deterministic output cache object. *)
      let OutputsForInput := llvm_sort ProducedOutputs in
      let* Result :=
        (if isEmitPCM (Action b)
         then match clangOutputs OutputsForInput with
              | Some outs => CAS_store (ClangResult outs)
              | None => fail EncodeError
              end
         else CAS_store (SwiftResult OutputsForInput)) in
      let* Key := createCompileJobCacheKeyForOutput (BaseKey b) InputIndex in
      Cache_put Key Result
  end.

(** *** [storeImpl] and [storeCachedDiagnostics] *)

Definition storeImpl (Path Bytes : string) (InputIndex : nat)
  (OutputKind : ID) : M unit :=
  let* BytesRef := CAS_store (Blob Bytes) in
  let* b := get_this in
  match OutputRefs b !! InputIndex with
  | None => fail (AssertionFailure "idx < size()")
  | Some outs =>
      let* _ := put_OutputRefs
                  (<[InputIndex := dm_insert outs OutputKind BytesRef]>
                     (OutputRefs b)) in
      finalizeCacheKeysFor InputIndex
  end.

Definition storeCachedDiagnostics (InputIndex : nat) (Bytes : string)
  : M unit :=
  storeImpl "<cached-diagnostics>" Bytes InputIndex TY_CachedDiagnostics.

(** *** [createFileImpl] and the output file *)

Definition createFileImpl (ResolvedPath : string) : M OutputFileImpl :=
  let* b := get_this in
  match OutputToInputMap b !! ResolvedPath with
  | None => fail RouteNotFound
  | Some (InputIndex, OutputType) =>
      (* Uncached output kind. *)
      if isProducedFromDiagnostics OutputType then ret NullOutputFileImpl
      else ret (SwiftCASOutputFile ResolvedPath "" InputIndex OutputType)
  end.

(** Writing to [getOS()] appends to the buffer of the file. *)
Definition write (f : OutputFileImpl) (data : string) : OutputFileImpl :=
  match f with
  | NullOutputFileImpl => NullOutputFileImpl
  | SwiftCASOutputFile p b i k => SwiftCASOutputFile p (b +:+ data) i k
  end.

Definition keep (f : OutputFileImpl) : M unit :=
  match f with
  | NullOutputFileImpl => ret ()
  | SwiftCASOutputFile p b i k => storeImpl p b i k
  end.

Definition discard (f : OutputFileImpl) : M unit := ret ().

(** *** [cloneImpl] *)

Definition cloneImpl (b : Implementation) : Implementation :=
  newImplementation (BaseKey b) (InputsAndOutputs b) (Action b).

End Backend.

(** ** Notions used to state the properties *)

(** The pending set of an input: [OutputRefs[InputIndex]], empty for an
    index the vector does not have. *)
Definition pendingSet (b : Implementation) (InputIndex : nat)
  : list (ID * ObjectRef) :=
  default [] (OutputRefs b !! InputIndex).

(** A request to store [Bytes] as the output of kind [OutputKind] of the
    input [InputIndex]. *)
Record StoreRequest := mkStore {
  reqInput : nat;
  reqKind : ID;
  reqBytes : string
}.

Definition reqRoute (q : StoreRequest) : nat * ID := (reqInput q, reqKind q).

(** The entry a request leaves in the pending set of its input. *)
Definition reqEntry (q : StoreRequest) : ID * ObjectRef :=
  (reqKind q, Blob (reqBytes q)).

(** The inputs served by the [put]s of a cache log: a key built by
    [createCompileJobCacheKeyForOutput] names its input. *)
Definition keyInput (e : ObjectRef * ObjectRef) : option nat :=
  match e.1 with
  | CacheKey _ InputIndex => Some InputIndex
  | _ => None
  end.

Definition putsFor (InputIndex : nat) (log : list (ObjectRef * ObjectRef))
  : list (ObjectRef * ObjectRef) :=
  filter (λ e, keyInput e = Some InputIndex) log.

(** The calls of [OutputToInputMap.insert] that [initBackend] makes for one
    input, in order. *)
Definition inputRoutes `{FileTypes} (mainOutputType : ID) (Input : InputFile)
  (Index : nat) : list (string * (nat * ID)) :=
  (if decide (outputFilename Input = "") then []
   else [(outputFilename Input, (Index, mainOutputType))])
  ++ omap (λ out, if isProducedFromDiagnostics out.2 then None
                  else Some (out.1, (Index, out.2)))
          (SupplementaryOutputs Input).

Fixpoint inputsRoutes `{FileTypes} (mainOutputType : ID)
  (inputs : list InputFile) (idx : nat) : list (string * (nat * ID)) :=
  match inputs with
  | [] => []
  | Input :: rest =>
      inputRoutes mainOutputType Input idx
      ++ inputsRoutes mainOutputType rest (S idx)
  end.

(** All the calls of [OutputToInputMap.insert] of [initBackend], in order. *)
Definition plannedRoutes `{FileTypes} (IO : FrontendInputsAndOutputs)
  : list (string * (nat * ID)) :=
  inputsRoutes (getPrincipalOutputType IO) (getAllInputs IO) 0
  ++ [("<cached-diagnostics>",
       (getIndexOfFirstOutputProducingInput IO, TY_CachedDiagnostics))].

(** The table after a sequence of [insert] calls. *)
Definition insertRoutes (routes : list (string * (nat * ID)))
  (map : gmap string (nat * ID)) : gmap string (nat * ID) :=
  foldl (λ m r, sm_insert r.1 r.2 m) map routes.

(** The first route planned for a path. *)
Definition firstRoute (routes : list (string * (nat * ID))) (path : string)
  : option (nat * ID) :=
  snd <$> List.find (λ r, bool_decide (r.1 = path)) routes.

(** The record [finalizeCacheKeysFor] builds from a pending set, [None]
    when building it reaches [llvm_unreachable]. *)
Definition encodeResult `{FileTypes} (Act : ActionType)
  (ProducedOutputs : list (ID * ObjectRef)) : option ObjectRef :=
  if isEmitPCM Act
  then ClangResult <$> clangOutputs (llvm_sort ProducedOutputs)
  else Some (SwiftResult (llvm_sort ProducedOutputs)).

(** The order the sort establishes. *)
Definition kind_lt (x y : ID * ObjectRef) : Prop := (x.1 < y.1)%N.

(** The kinds that have a slot in the clang schema. *)
Definition inClangSchema `{FileTypes} (k : ID) : Prop :=
  k = TY_ClangModuleFile ∨ k = TY_CachedDiagnostics ∨ k = TY_Dependencies.

(** What [finalizeCacheKeysFor] does once the outputs are found complete:
    the record is stored, the key derived and the entry put. *)
Definition registerResult `{FileTypes} (Act : ActionType) (Key : ObjectRef)
  (InputIndex : nat) (outs : list (ID * ObjectRef)) : M unit :=
  match encodeResult Act outs with
  | None => fail EncodeError
  | Some rec =>
      let* Result := CAS_store rec in
      let* K := createCompileJobCacheKeyForOutput Key InputIndex in
      Cache_put K Result
  end.

(** The backend after [OutputRefs[InputIndex].insert({OutputKind, Ref})]. *)
Definition inserted (b : Implementation) (InputIndex : nat) (OutputKind : ID)
  (Ref : ObjectRef) : Implementation :=
  set_OutputRefs
    (<[InputIndex := dm_insert (pendingSet b InputIndex) OutputKind Ref]>
       (OutputRefs b)) b.

(** The backend after the entries of [reqs] joined the pending set of
    [InputIndex], and the services after they stored the bytes of [reqs]. *)
Definition filled (b : Implementation) (InputIndex : nat)
  (reqs : list StoreRequest) : Implementation :=
  set_OutputRefs
    (<[InputIndex := pendingSet b InputIndex ++ (reqEntry <$> reqs)]>
       (OutputRefs b)) b.

Definition storedAll (reqs : list StoreRequest) (w : World) : World :=
  mkWorld (cas_objects w ++ ((λ q, Blob (reqBytes q)) <$> reqs))
    (cache_entries w) (outcomes w).

(** Requests served one after the other; the run ends at the first one
    that does not succeed. *)
Fixpoint storeAll `{FileTypes} (reqs : list StoreRequest) : M unit :=
  match reqs with
  | [] => ret ()
  | q :: rest =>
      let* _ := storeImpl "" (reqBytes q) (reqInput q) (reqKind q) in
      storeAll rest
  end.

(** An output file created at [path], written with [data] and kept. *)
Definition keepFile `{FileTypes} (path data : string) : M unit :=
  let* f := createFileImpl path in keep (write f data).

(** Output files kept one after the other, each given by its path and what
    is written to it; the run ends at the first one that does not
    succeed. *)
Fixpoint keepAll `{FileTypes} (files : list (string * string)) : M unit :=
  match files with
  | [] => ret ()
  | f :: rest =>
      let* _ := keepFile f.1 f.2 in
      keepAll rest
  end.

(** ** Several backends on the same services *)

(** The backends alive in the process, by handle, and the content store and
    action cache that all of them refer to. *)
Record Process := mkProcess {
  backends : list Implementation;
  shared : World
}.

(** A method called on the backend with handle [h]. *)
Definition call {A} (h : nat) (c : M A) (p : Process)
  : option (Error + A) * Process :=
  match backends p !! h with
  | None => (None, p)
  | Some b =>
      let '(r, s) := c (mkMachine b (shared p)) in
      (Some r, mkProcess (<[h := this s]> (backends p)) (services s))
  end.

(** [SwiftCASOutputBackend::cloneImpl] on the backend with handle [h]: the
    new backend gets the next handle. *)
Definition clone `{FileTypes} (h : nat) (p : Process) : option nat * Process :=
  match backends p !! h with
  | None => (None, p)
  | Some b =>
      (Some (length (backends p)),
       mkProcess (backends p ++ [cloneImpl b]) (shared p))
  end.

(** ** A sample plan *)

(** An assignment of the enumerators to run the backend on: besides the
    three kinds that the backend names, 10 stands for object files, the
    principal output of the sample plans, and 20 for serialized
    diagnostics, the one kind produced from diagnostics. *)
Definition sampleTypes : FileTypes :=
  {| TY_ClangModuleFile := 30;
     TY_CachedDiagnostics := 40;
     TY_Dependencies := 5;
     isProducedFromDiagnostics := λ k, (k =? 20)%N |}.

(** Two inputs: the first has an object file, a dependency list and a
    serialized-diagnostics file, the second an object file only. *)
Definition samplePlan : FrontendInputsAndOutputs :=
  mkInputsAndOutputs
    [mkInputFile "a.o" [("a.d", 5%N); ("a.dia", 20%N)];
     mkInputFile "b.o" []]
    10%N 0.

Definition sampleBackend : Implementation :=
  newImplementation (H := sampleTypes) (Foreign 1) samplePlan (OtherAction 0).

Definition quietWorld : World := mkWorld [] [] [].

Definition sampleMachine : Machine := mkMachine sampleBackend quietWorld.

(** A plan that writes the main output of both inputs to [-]. *)
Definition stdoutPlan : FrontendInputsAndOutputs :=
  mkInputsAndOutputs [mkInputFile "-" []; mkInputFile "-" []] 10%N 0.

(** A module-emission backend whose first input has a clang module file
    and, against the schema, an output of kind 7. *)
Definition pcmPlan : FrontendInputsAndOutputs :=
  mkInputsAndOutputs [mkInputFile "m.pcm" [("m.x", 7%N)]] 30%N 0.

Definition pcmBackend : Implementation :=
  newImplementation (H := sampleTypes) (Foreign 2) pcmPlan EmitPCM.

(** The module-emission backend after its clang module file, its cached
    diagnostics and the output of kind 7 were stored. *)
Definition pcmRequests : list StoreRequest :=
  [mkStore 0 30 "PCM"; mkStore 0 40 "DIAG"; mkStore 0 7 "X"].

Definition pcmMachine : Machine :=
  (storeAll (H := sampleTypes) pcmRequests (mkMachine pcmBackend quietWorld)).2.



(** A plan whose principal output is the serialized diagnostics: its one
    input has them as main output, and a dependency list besides. *)
Definition diagnosticsPlan : FrontendInputsAndOutputs :=
  mkInputsAndOutputs [mkInputFile "a.dia" [("a.d", 5%N)]] 20%N 0.

Definition diagnosticsMachine : Machine :=
  mkMachine
    (newImplementation (H := sampleTypes) (Foreign 4) diagnosticsPlan
       (OtherAction 0))
    quietWorld.

(** The requests for the three declared kinds of the first sample input,
    in two orders, and requests for both sample inputs. *)
Definition firstInputRequests : list StoreRequest :=
  [mkStore 0 10 "AA"; mkStore 0 5 "DD"; mkStore 0 40 "diag"].

Definition firstInputRequests' : list StoreRequest :=
  [mkStore 0 40 "diag"; mkStore 0 10 "AA"; mkStore 0 5 "DD"].

Definition bothInputsRequests : list StoreRequest :=
  [mkStore 0 10 "AA"; mkStore 1 10 "BB"; mkStore 0 5 "DD";
   mkStore 0 40 "diag"].

(** A content store that fails on the next call. *)
Definition failingWorld : World := mkWorld [] [] [false].

(** Services on which the record and the key can be stored and the put
    then fails. *)
Definition putFailsWorld : World := mkWorld [] [] [true; true; true; false].

(** A plan whose second input produces no output, and its backend. *)
Definition silentPlan : FrontendInputsAndOutputs :=
  mkInputsAndOutputs [mkInputFile "a.o" []; mkInputFile "" []] 10%N 0.

Definition silentBackend : Implementation :=
  newImplementation (H := sampleTypes) (Foreign 3) silentPlan (OtherAction 0).

(** * Extended information for function types

    The builders of [include/swift/AST/ExtInfo.h]: the calling convention
    and the flags of a function type, packed in the bits of an [unsigned]. *)

(** [~m] on a 32-bit [unsigned]. *)
Definition unsigned_not (m : Z) : Z := Z.lxor m (Z.ones 32).

(** A value converted to [bool]. *)
Definition nonzero (z : Z) : bool := negb (z =? 0)%Z.

(** [ClangTypeInfo]: the pointer to the [clang::Type], [None] for
    [nullptr]. *)
Abbreviation ClangTypeInfo := (option N) (only parsing).

(** [DifferentiabilityKind] is declared in [swift/AST/AutoDiff.h]; a kind
    is kept as the value of its enumerator, a [uint8_t]. *)
Abbreviation DifferentiabilityKind := Z (only parsing).

Module FunctionTypeRepresentation.

Inductive t := Swift | Block | Thin | CFunctionPointer.

(** The value of an enumerator; [Last] is that of [CFunctionPointer]. *)
Definition raw (rep : t) : Z :=
  match rep with
  | Swift => 0
  | Block => 1
  | Thin => 2
  | CFunctionPointer => 3
  end.

Definition Last : Z := raw CFunctionPointer.

(** The enumerator that a value names, if any. *)
Definition of_raw (z : Z) : option t :=
  if (z =? 0)%Z then Some Swift
  else if (z =? 1)%Z then Some Block
  else if (z =? 2)%Z then Some Thin
  else if (z =? 3)%Z then Some CFunctionPointer
  else None.

End FunctionTypeRepresentation.

Module SILFunctionTypeRepresentation.

Inductive t :=
| Thick | Block | Thin | CFunctionPointer
| Method | ObjCMethod | WitnessMethod | Closure.

Definition FirstSIL : Z := 8.

Definition raw (rep : t) : Z :=
  match rep with
  | Thick => FunctionTypeRepresentation.raw FunctionTypeRepresentation.Swift
  | Block => FunctionTypeRepresentation.raw FunctionTypeRepresentation.Block
  | Thin => FunctionTypeRepresentation.raw FunctionTypeRepresentation.Thin
  | CFunctionPointer =>
      FunctionTypeRepresentation.raw FunctionTypeRepresentation.CFunctionPointer
  | Method => FirstSIL
  | ObjCMethod => FirstSIL + 1
  | WitnessMethod => FirstSIL + 2
  | Closure => FirstSIL + 3
  end.

Definition of_raw (z : Z) : option t :=
  if (z =? 0)%Z then Some Thick
  else if (z =? 1)%Z then Some Block
  else if (z =? 2)%Z then Some Thin
  else if (z =? 3)%Z then Some CFunctionPointer
  else if (z =? 8)%Z then Some Method
  else if (z =? 9)%Z then Some ObjCMethod
  else if (z =? 10)%Z then Some WitnessMethod
  else if (z =? 11)%Z then Some Closure
  else None.

End SILFunctionTypeRepresentation.

(** Can this calling convention result in a function being called
    indirectly through the runtime. *)
Definition canBeCalledIndirectly (rep : SILFunctionTypeRepresentation.t)
  : bool :=
  match rep with
  | SILFunctionTypeRepresentation.Thick
  | SILFunctionTypeRepresentation.Thin
  | SILFunctionTypeRepresentation.CFunctionPointer
  | SILFunctionTypeRepresentation.Block
  | SILFunctionTypeRepresentation.Closure => false
  | SILFunctionTypeRepresentation.ObjCMethod
  | SILFunctionTypeRepresentation.Method
  | SILFunctionTypeRepresentation.WitnessMethod => true
  end.

Module SILFunctionLanguage.

Inductive t := Swift | C.

End SILFunctionLanguage.

Definition getSILFunctionLanguage (rep : SILFunctionTypeRepresentation.t)
  : SILFunctionLanguage.t :=
  match rep with
  | SILFunctionTypeRepresentation.ObjCMethod
  | SILFunctionTypeRepresentation.CFunctionPointer
  | SILFunctionTypeRepresentation.Block => SILFunctionLanguage.C
  | SILFunctionTypeRepresentation.Thick
  | SILFunctionTypeRepresentation.Thin
  | SILFunctionTypeRepresentation.Method
  | SILFunctionTypeRepresentation.WitnessMethod
  | SILFunctionTypeRepresentation.Closure => SILFunctionLanguage.Swift
  end.

(** The two [switch]es over a SIL representation that both builders have;
    a value that names no enumerator runs into [llvm_unreachable], which
    is [None]. *)
Definition repHasSelfParam (rep : option SILFunctionTypeRepresentation.t)
  : option bool :=
  match rep with
  | Some SILFunctionTypeRepresentation.Thick
  | Some SILFunctionTypeRepresentation.Block
  | Some SILFunctionTypeRepresentation.Thin
  | Some SILFunctionTypeRepresentation.CFunctionPointer
  | Some SILFunctionTypeRepresentation.Closure => Some false
  | Some SILFunctionTypeRepresentation.ObjCMethod
  | Some SILFunctionTypeRepresentation.Method
  | Some SILFunctionTypeRepresentation.WitnessMethod => Some true
  | None => None
  end.

Definition repHasContext (rep : option SILFunctionTypeRepresentation.t)
  : option bool :=
  match rep with
  | Some SILFunctionTypeRepresentation.Thick
  | Some SILFunctionTypeRepresentation.Block => Some true
  | Some SILFunctionTypeRepresentation.Thin
  | Some SILFunctionTypeRepresentation.Method
  | Some SILFunctionTypeRepresentation.ObjCMethod
  | Some SILFunctionTypeRepresentation.WitnessMethod
  | Some SILFunctionTypeRepresentation.CFunctionPointer
  | Some SILFunctionTypeRepresentation.Closure => Some false
  | None => None
  end.

(** ** [SILExtInfoBuilder] *)

Module SILExtInfoBuilder.

(*   |representation|pseudogeneric| noescape |differentiability|
     |    0 .. 3    |      4      |     5    |      6 .. 7     |   *)
Definition RepresentationMask : Z := Z.shiftl 15 0.
Definition PseudogenericMask : Z := Z.shiftl 1 4.
Definition NoEscapeMask : Z := Z.shiftl 1 5.
Definition DifferentiabilityMaskOffset : Z := 6.
Definition DifferentiabilityMask : Z := Z.shiftl 3 DifferentiabilityMaskOffset.
Definition NumMaskBits : Z := 8.

Record t := mk {
  bits : Z;
  clangTypeInfo : ClangTypeInfo
}.

(** The constructor with a representation, two flags, a differentiability
    kind and a clang type. *)
Definition make (rep : SILFunctionTypeRepresentation.t)
  (isPseudogeneric isNoEscape : bool) (diffKind : DifferentiabilityKind)
  (type : ClangTypeInfo) : t :=
  mk (Z.lor
        (Z.lor
           (Z.lor (SILFunctionTypeRepresentation.raw rep)
              (if isPseudogeneric then PseudogenericMask else 0))
           (if isNoEscape then NoEscapeMask else 0))
        (Z.land (Z.shiftl diffKind DifferentiabilityMaskOffset)
           DifferentiabilityMask))
     type.

Definition getRepresentation (b : t) : option SILFunctionTypeRepresentation.t :=
  SILFunctionTypeRepresentation.of_raw (Z.land (bits b) RepresentationMask).

Definition getLanguage (b : t) : option SILFunctionLanguage.t :=
  getSILFunctionLanguage <$> getRepresentation b.

Definition isPseudogeneric (b : t) : bool :=
  nonzero (Z.land (bits b) PseudogenericMask).

Definition isNoEscape (b : t) : bool := nonzero (Z.land (bits b) NoEscapeMask).

Definition getDifferentiabilityKind (b : t) : DifferentiabilityKind :=
  Z.shiftr (Z.land (bits b) DifferentiabilityMask) DifferentiabilityMaskOffset.

Definition getClangTypeInfo (b : t) : option N := clangTypeInfo b.

Definition hasSelfParam (b : t) : option bool :=
  repHasSelfParam (getRepresentation b).

Definition hasContext (b : t) : option bool :=
  repHasContext (getRepresentation b).

Definition withRepresentation (b : t) (rep : SILFunctionTypeRepresentation.t)
  : t :=
  mk (Z.lor (Z.land (bits b) (unsigned_not RepresentationMask))
        (SILFunctionTypeRepresentation.raw rep))
     (clangTypeInfo b).

Definition withIsPseudogeneric (b : t) (isPseudogeneric : bool) : t :=
  mk (if isPseudogeneric then Z.lor (bits b) PseudogenericMask
      else Z.land (bits b) (unsigned_not PseudogenericMask))
     (clangTypeInfo b).

Definition withNoEscape (b : t) (noEscape : bool) : t :=
  mk (if noEscape then Z.lor (bits b) NoEscapeMask
      else Z.land (bits b) (unsigned_not NoEscapeMask))
     (clangTypeInfo b).

Definition withDifferentiabilityKind (b : t)
  (differentiability : DifferentiabilityKind) : t :=
  mk (Z.lor (Z.land (bits b) (unsigned_not DifferentiabilityMask))
        (Z.shiftl differentiability DifferentiabilityMaskOffset))
     (clangTypeInfo b).

Definition getFuncAttrKey (b : t) : Z * option N := (bits b, clangTypeInfo b).

(** [SILExtInfo::operator==], on the builders that the two infos wrap. *)
Definition equal (b other : t) : bool := (bits b =? bits other)%Z.

End SILExtInfoBuilder.

(** ** [ASTExtInfoBuilder] *)

Module ASTExtInfoBuilder.

(*   |representation|noEscape|async|throws|differentiability|
     |    0 .. 3    |    4   |  5  |   6  |      7 .. 8     |   *)
Definition RepresentationMask : Z := Z.shiftl 15 0.
Definition NoEscapeMask : Z := Z.shiftl 1 4.
Definition AsyncMask : Z := Z.shiftl 1 5.
Definition ThrowsMask : Z := Z.shiftl 1 6.
Definition DifferentiabilityMaskOffset : Z := 7.
Definition DifferentiabilityMask : Z := Z.shiftl 3 DifferentiabilityMaskOffset.
Definition NumMaskBits : Z := 9.

Record t := mk {
  bits : Z;
  clangTypeInfo : ClangTypeInfo
}.

Section Construction.

(** What [assertIsFunctionType] accepts; it is defined with the rest of the
    class, outside the header. *)
Variable isFunctionType : N → bool.

(** The private constructor: a clang type given for a C function pointer
    must pass [assertIsFunctionType]; [None] when the assertion trips. *)
Definition construct (bits : Z) (clangTypeInfo : ClangTypeInfo) : option t :=
  match clangTypeInfo with
  | Some type =>
      if (Z.land bits RepresentationMask
          =? FunctionTypeRepresentation.raw
               FunctionTypeRepresentation.CFunctionPointer)%Z
         && negb (isFunctionType type)
      then None
      else Some (mk bits clangTypeInfo)
  | None => Some (mk bits clangTypeInfo)
  end.

(** The constructor with no defaults. *)
Definition make (rep : FunctionTypeRepresentation.t)
  (isNoEscape throws : bool) (diffKind : DifferentiabilityKind)
  (type : ClangTypeInfo) : option t :=
  construct
    (Z.lor
       (Z.lor
          (Z.lor (FunctionTypeRepresentation.raw rep)
             (if isNoEscape then NoEscapeMask else 0))
          (if throws then ThrowsMask else 0))
       (Z.land (Z.shiftl diffKind DifferentiabilityMaskOffset)
          DifferentiabilityMask))
    type.

Definition withRepresentation (b : t) (rep : FunctionTypeRepresentation.t)
  : option t :=
  construct
    (Z.lor (Z.land (bits b) (unsigned_not RepresentationMask))
       (FunctionTypeRepresentation.raw rep))
    (clangTypeInfo b).

Definition withNoEscape (b : t) (noEscape : bool) : option t :=
  construct
    (if noEscape then Z.lor (bits b) NoEscapeMask
     else Z.land (bits b) (unsigned_not NoEscapeMask))
    (clangTypeInfo b).

Definition withAsync (b : t) (async : bool) : option t :=
  construct
    (if async then Z.lor (bits b) AsyncMask
     else Z.land (bits b) (unsigned_not AsyncMask))
    (clangTypeInfo b).

Definition withThrows (b : t) (throws : bool) : option t :=
  construct
    (if throws then Z.lor (bits b) ThrowsMask
     else Z.land (bits b) (unsigned_not ThrowsMask))
    (clangTypeInfo b).

Definition withDifferentiabilityKind (b : t)
  (differentiability : DifferentiabilityKind) : option t :=
  construct
    (Z.lor (Z.land (bits b) (unsigned_not DifferentiabilityMask))
       (Z.shiftl differentiability DifferentiabilityMaskOffset))
    (clangTypeInfo b).

Definition withClangFunctionType (b : t) (type : ClangTypeInfo) : option t :=
  construct (bits b) type.

Definition withSILRepresentation (b : t)
  (rep : SILFunctionTypeRepresentation.t) : option t :=
  construct
    (Z.lor (Z.land (bits b) (unsigned_not RepresentationMask))
       (SILFunctionTypeRepresentation.raw rep))
    (clangTypeInfo b).

End Construction.

(** [getRepresentation] asserts that the value is at most [Last]; [None]
    when the assertion trips. *)
Definition getRepresentation (b : t) : option FunctionTypeRepresentation.t :=
  let rawRep := Z.land (bits b) RepresentationMask in
  if (rawRep <=? FunctionTypeRepresentation.Last)%Z
  then FunctionTypeRepresentation.of_raw rawRep
  else None.

Definition isNoEscape (b : t) : bool := nonzero (Z.land (bits b) NoEscapeMask).

Definition async (b : t) : bool := nonzero (Z.land (bits b) AsyncMask).

Definition throws (b : t) : bool := nonzero (Z.land (bits b) ThrowsMask).

Definition getDifferentiabilityKind (b : t) : DifferentiabilityKind :=
  Z.shiftr (Z.land (bits b) DifferentiabilityMask) DifferentiabilityMaskOffset.

Definition getClangTypeInfo (b : t) : option N := clangTypeInfo b.

Definition getSILRepresentation (b : t)
  : option SILFunctionTypeRepresentation.t :=
  SILFunctionTypeRepresentation.of_raw (Z.land (bits b) RepresentationMask).

Definition hasSelfParam (b : t) : option bool :=
  repHasSelfParam (getSILRepresentation b).

Definition hasContext (b : t) : option bool :=
  repHasContext (getSILRepresentation b).

Definition getFuncAttrKey (b : t) : Z * option N := (bits b, clangTypeInfo b).

(** [ASTExtInfo::operator==], on the builders that the two infos wrap. *)
Definition equal (b other : t) : bool := (bits b =? bits other)%Z.

End ASTExtInfoBuilder.

(** Sample builders: an [assertIsFunctionType] that accepts the clang type
    1 only, a SIL builder for a method and an AST builder for a C function
    pointer with that clang type. *)
Definition sampleIsFunctionType (type : N) : bool := (type =? 1)%N.

Definition sampleSILBuilder : SILExtInfoBuilder.t :=
  SILExtInfoBuilder.make SILFunctionTypeRepresentation.Method true false 1 None.

Definition sampleASTBuilder : ASTExtInfoBuilder.t :=
  ASTExtInfoBuilder.mk 3 (Some 1%N).

(** * Properties *)

(** ** The two maps *)

Lemma dm_count_true (m : list (ID * ObjectRef)) k :
  dm_count m k = true ↔ k ∈ m.*1.
Proof.
  unfold dm_count. rewrite existsb_exists. split.
  - intros [[k' v] [Hin Heq]]. apply N.eqb_eq in Heq. simpl in Heq. subst.
    apply list_elem_of_fmap. exists (k, v). split; [done|].
    by apply list_elem_of_In.
  - intros ([k' v] & -> & Hin)%list_elem_of_fmap. exists (k', v).
    split; [by apply list_elem_of_In | apply N.eqb_refl].
Qed.

Lemma dm_count_false (m : list (ID * ObjectRef)) k :
  dm_count m k = false ↔ k ∉ m.*1.
Proof.
  rewrite <- dm_count_true. destruct (dm_count m k); split; congruence.
Qed.

Lemma dm_insert_present (m : list (ID * ObjectRef)) k v :
  dm_count m k = true → dm_insert m k v = m.
Proof. unfold dm_insert. by intros ->. Qed.

Lemma dm_insert_absent (m : list (ID * ObjectRef)) k v :
  dm_count m k = false → dm_insert m k v = m ++ [(k, v)].
Proof. unfold dm_insert. by intros ->. Qed.

Lemma dm_insert_nonempty (m : list (ID * ObjectRef)) k v :
  dm_insert m k v ≠ [].
Proof.
  unfold dm_insert. destruct (dm_count m k) eqn:E.
  - intros ->. discriminate.
  - by destruct m.
Qed.

Lemma dm_count_insert (m : list (ID * ObjectRef)) k v :
  dm_count (dm_insert m k v) k = true.
Proof.
  unfold dm_insert. destruct (dm_count m k) eqn:E; [done|].
  apply dm_count_true. rewrite fmap_app. apply elem_of_app. right.
  apply list_elem_of_singleton. done.
Qed.

Lemma dm_count_insert_mono (m : list (ID * ObjectRef)) k v k' :
  dm_count m k' = true → dm_count (dm_insert m k v) k' = true.
Proof.
  unfold dm_insert. destruct (dm_count m k); [done|].
  rewrite !dm_count_true, fmap_app. intros Hin. apply elem_of_app. by left.
Qed.

Lemma dm_find_present (m : list (ID * ObjectRef)) k v v' :
  dm_find m k = Some v → dm_find (dm_insert m k v') k = Some v.
Proof.
  intros Hf. rewrite dm_insert_present; [done|].
  unfold dm_find in Hf. destruct (List.find _ m) as [e|] eqn:E; [|done].
  apply find_some in E as [Hin Heq]. unfold dm_count.
  apply existsb_exists. eauto.
Qed.

Lemma sm_insert_present {V} (m : gmap string V) k v v' :
  m !! k = Some v → sm_insert k v' m = m.
Proof. unfold sm_insert. by intros ->. Qed.

Lemma sm_insert_lookup {V} (m : gmap string V) k v p :
  sm_insert k v m !! p =
    match m !! p with
    | Some r => Some r
    | None => if decide (k = p) then Some v else None
    end.
Proof.
  unfold sm_insert. destruct (m !! k) eqn:E.
  - destruct (m !! p) eqn:E'; [done|]. case_decide; congruence.
  - rewrite lookup_insert. case_decide; subst.
    + by rewrite E.
    + by destruct (m !! p).
Qed.

(** ** The sort *)

Lemma sort_insert_perm x l : sort_insert x l ≡ₚ x :: l.
Proof.
  induction l as [|y l IH]; simpl; [done|].
  destruct (first_less x y); [done|]. rewrite IH. apply Permutation_swap.
Qed.

Lemma llvm_sort_perm l : llvm_sort l ≡ₚ l.
Proof.
  induction l as [|x l IH]; simpl; [done|].
  by rewrite sort_insert_perm, IH.
Qed.

Lemma sort_insert_sorted x l :
  x.1 ∉ l.*1 → StronglySorted kind_lt l →
  StronglySorted kind_lt (sort_insert x l).
Proof.
  intros Hx Hs. induction Hs as [|y l Hl IH Hy]; simpl.
  { repeat constructor. }
  rewrite fmap_cons, not_elem_of_cons in Hx. destruct Hx as [Hne Hnin].
  unfold first_less. destruct (N.ltb_spec x.1 y.1) as [Hlt|Hge].
  - constructor; [by constructor|]. constructor; [done|].
    eapply Forall_impl; [done|]. unfold kind_lt. intros z ?. lia.
  - constructor; [by apply IH|].
    rewrite sort_insert_perm. constructor; [|done]. unfold kind_lt. lia.
Qed.

Lemma llvm_sort_sorted l : NoDup l.*1 → StronglySorted kind_lt (llvm_sort l).
Proof.
  induction l as [|x l IH]; simpl; [constructor|].
  rewrite NoDup_cons. intros [Hx Hl]. apply sort_insert_sorted; [|by apply IH].
  by rewrite llvm_sort_perm.
Qed.

(** The sorted sequence depends on the entries only, not on the order in
    which the map hands them out. *)
Lemma llvm_sort_unique l l' :
  NoDup l.*1 → l ≡ₚ l' → llvm_sort l = llvm_sort l'.
Proof.
  intros Hl Hperm.
  apply (StronglySorted_unique_strong kind_lt).
  - unfold kind_lt. intros. lia.
  - by apply llvm_sort_sorted.
  - apply llvm_sort_sorted. by rewrite <- Hperm.
  - by rewrite !llvm_sort_perm.
Qed.

Section Properties.

Context `{FileTypes}.

(** *** The clang schema *)

Lemma clangOutputs_out_of_schema (outs : list (ID * ObjectRef)) k :
  k ∈ outs.*1 → ¬ inClangSchema k → clangOutputs outs = None.
Proof.
  unfold inClangSchema. intros Hin Hk.
  induction outs as [|[k' v] outs IH]; simpl in *; [by inv Hin|].
  destruct (decide (k = k')) as [<-|Hne].
  - destruct (N.eqb_spec k TY_ClangModuleFile); [tauto|].
    destruct (N.eqb_spec k TY_CachedDiagnostics); [tauto|].
    destruct (N.eqb_spec k TY_Dependencies); [tauto|]. done.
  - rewrite IH by (inv Hin; done).
    by repeat case_match.
Qed.

Lemma clangOutputs_in_schema (outs : list (ID * ObjectRef)) :
  (∀ k, k ∈ outs.*1 → inClangSchema k) → is_Some (clangOutputs outs).
Proof.
  unfold inClangSchema.
  induction outs as [|[k v] outs IH]; simpl; intros Hall; [by eexists|].
  destruct IH as [l Hl]; [intros; apply Hall; by right|]. rewrite Hl. simpl.
  destruct (Hall k) as [<-|[<-|<-]]; [by left|..];
    rewrite ?N.eqb_refl; repeat case_match; by eexists.
Qed.

(** *** Completeness *)

Lemma allOutputsEmitted_true map idx (outs : list (ID * ObjectRef)) :
  allOutputsEmitted map idx outs = true ↔
  ∀ p k, map !! p = Some (idx, k) → dm_count outs k = true.
Proof.
  unfold allOutputsEmitted. rewrite forallb_forall. split.
  - intros Hall p k Hp.
    specialize (Hall (p, (idx, k))). simpl in Hall.
    rewrite Nat.eqb_refl in Hall. apply Hall.
    apply list_elem_of_In. by apply elem_of_map_to_list.
  - intros Hall [p [i k]] Hin. simpl.
    apply list_elem_of_In, elem_of_map_to_list in Hin.
    destruct (Nat.eqb_spec i idx) as [->|]; [|done]. simpl. eauto.
Qed.

Lemma allOutputsEmitted_false map idx (outs : list (ID * ObjectRef)) p k :
  map !! p = Some (idx, k) → dm_count outs k = false →
  allOutputsEmitted map idx outs = false.
Proof.
  intros Hp Hk. destruct (allOutputsEmitted map idx outs) eqn:E; [|done].
  rewrite allOutputsEmitted_true in E. specialize (E p k Hp). congruence.
Qed.

(** *** The equations of [finalizeCacheKeysFor] and [storeImpl] *)

Lemma finalize_out_of_range b w idx :
  OutputRefs b !! idx = None →
  finalizeCacheKeysFor idx (mkMachine b w)
  = (inl (AssertionFailure "idx < size()"), mkMachine b w).
Proof. intros E. unfold finalizeCacheKeysFor, bind, get_this. simpl. by rewrite E. Qed.

Lemma finalize_incomplete b w idx outs :
  OutputRefs b !! idx = Some outs → outs ≠ [] →
  allOutputsEmitted (OutputToInputMap b) idx outs = false →
  finalizeCacheKeysFor idx (mkMachine b w) = (inr (), mkMachine b w).
Proof.
  intros E Hne Hall. unfold finalizeCacheKeysFor, bind, get_this. simpl.
  rewrite E. case_decide; [done|]. by rewrite Hall.
Qed.

Lemma finalize_complete b w idx outs :
  OutputRefs b !! idx = Some outs → outs ≠ [] →
  allOutputsEmitted (OutputToInputMap b) idx outs = true →
  finalizeCacheKeysFor idx (mkMachine b w)
  = registerResult (Action b) (BaseKey b) idx outs (mkMachine b w).
Proof.
  intros E Hne Hall. unfold finalizeCacheKeysFor, registerResult, bind, get_this.
  simpl. rewrite E. case_decide; [done|]. rewrite Hall. simpl.
  unfold encodeResult. destruct (isEmitPCM (Action b)); [|done].
  by destruct (clangOutputs (llvm_sort outs)).
Qed.

Lemma storeImpl_store_fails Path Bytes idx kind b w :
  (next_outcome w).1 = false →
  storeImpl Path Bytes idx kind (mkMachine b w)
  = (inl StoreError, mkMachine b (next_outcome w).2).
Proof.
  intros E. unfold storeImpl, bind, CAS_store. simpl.
  destruct (next_outcome w) as [ok w1]. simpl in *. by subst.
Qed.

Lemma storeImpl_out_of_range Path Bytes idx kind b w :
  (next_outcome w).1 = true → OutputRefs b !! idx = None →
  storeImpl Path Bytes idx kind (mkMachine b w)
  = (inl (AssertionFailure "idx < size()"),
     mkMachine b (stored (Blob Bytes) (next_outcome w).2)).
Proof.
  intros E Hidx. unfold storeImpl, bind, CAS_store, get_this. simpl.
  destruct (next_outcome w) as [ok w1]. simpl in *. subst. simpl.
  by rewrite Hidx.
Qed.

Lemma storeImpl_stored Path Bytes idx kind b w :
  (next_outcome w).1 = true → idx < length (OutputRefs b) →
  storeImpl Path Bytes idx kind (mkMachine b w)
  = finalizeCacheKeysFor idx
      (mkMachine (inserted b idx kind (Blob Bytes))
         (stored (Blob Bytes) (next_outcome w).2)).
Proof.
  intros E Hidx. unfold storeImpl, bind, CAS_store, get_this. simpl.
  destruct (next_outcome w) as [ok w1]. simpl in *. subst. simpl.
  apply lookup_lt_is_Some in Hidx as [outs Houts].
  unfold inserted, pendingSet. rewrite Houts. simpl. done.
Qed.

Lemma pendingSet_inserted b idx kind ref :
  idx < length (OutputRefs b) →
  pendingSet (inserted b idx kind ref) idx
  = dm_insert (pendingSet b idx) kind ref.
Proof.
  intros Hidx. unfold pendingSet at 1. unfold inserted. simpl.
  by rewrite list_lookup_insert_eq.
Qed.

Lemma pendingSet_inserted_ne b idx kind ref j :
  idx ≠ j → pendingSet (inserted b idx kind ref) j = pendingSet b j.
Proof.
  intros Hne. unfold pendingSet, inserted. simpl.
  by rewrite list_lookup_insert_ne.
Qed.

Lemma next_outcome_logs w :
  cas_objects (next_outcome w).2 = cas_objects w
  ∧ cache_entries (next_outcome w).2 = cache_entries w.
Proof. unfold next_outcome. by destruct (outcomes w). Qed.

Lemma registerResult_this Act Key idx outs s :
  this (registerResult Act Key idx outs s).2 = this s.
Proof.
  unfold registerResult, bind, fail, createCompileJobCacheKeyForOutput,
    CAS_store, Cache_put.
  destruct (encodeResult Act outs); [|done]. simpl.
  destruct (next_outcome (services s)) as [[] w1]; [|done]. simpl.
  destruct (next_outcome (stored o w1)) as [[] w2]; [|done]. simpl.
  by destruct (next_outcome (stored _ w2)) as [[] w3].
Qed.

Lemma finalize_this idx s : this (finalizeCacheKeysFor idx s).2 = this s.
Proof.
  destruct s as [b w].
  destruct (OutputRefs b !! idx) as [outs|] eqn:E;
    [|by rewrite finalize_out_of_range].
  destruct (decide (outs = [])) as [->|Hne].
  { unfold finalizeCacheKeysFor, bind, get_this. simpl. by rewrite E. }
  destruct (allOutputsEmitted (OutputToInputMap b) idx outs) eqn:Hall.
  - rewrite (finalize_complete _ _ _ outs) by done.
    apply registerResult_this.
  - by rewrite (finalize_incomplete _ _ _ outs).
Qed.

Lemma lookup_inserted b idx kind ref :
  idx < length (OutputRefs b) →
  OutputRefs (inserted b idx kind ref) !! idx
  = Some (dm_insert (pendingSet b idx) kind ref).
Proof. intros Hidx. unfold inserted. simpl. by rewrite list_lookup_insert_eq. Qed.

Lemma pendingSet_out_of_range b idx :
  (length (OutputRefs b) ≤ idx)%nat → pendingSet b idx = [].
Proof. intros Hge. unfold pendingSet. by rewrite lookup_ge_None_2. Qed.

(** A store that ends with some declared kind missing returned after the
    completeness test. *)
Lemma storeImpl_incomplete Path Bytes idx kind b w p k :
  (next_outcome w).1 = true → idx < length (OutputRefs b) →
  OutputToInputMap b !! p = Some (idx, k) →
  dm_count (dm_insert (pendingSet b idx) kind (Blob Bytes)) k = false →
  storeImpl Path Bytes idx kind (mkMachine b w)
  = (inr (), mkMachine (inserted b idx kind (Blob Bytes))
               (stored (Blob Bytes) (next_outcome w).2)).
Proof.
  intros Hok Hidx Hp Hk. rewrite storeImpl_stored by done.
  eapply finalize_incomplete.
  - by apply lookup_inserted.
  - apply dm_insert_nonempty.
  - by eapply allOutputsEmitted_false.
Qed.

(** C1. A store after which a kind that the route table declares for the
    input is still missing from the pending set of the input has written
    no cache entry; and if the content store took the bytes it has
    returned success and has stored nothing but the bytes: no record was
    encoded. *)
Theorem store_writes_cache_only_when_complete Path Bytes idx kind s p k :
  OutputToInputMap (this s) !! p = Some (idx, k) →
  dm_count (pendingSet (this (storeImpl Path Bytes idx kind s).2) idx) k
  = false →
  cache_entries (services (storeImpl Path Bytes idx kind s).2)
  = cache_entries (services s)
  ∧ ((next_outcome (services s)).1 = true →
     idx < length (OutputRefs (this s)) →
     (storeImpl Path Bytes idx kind s).1 = inr ()
     ∧ cas_objects (services (storeImpl Path Bytes idx kind s).2)
       = cas_objects (services s) ++ [Blob Bytes]).
Proof.
  destruct s as [b w]. simpl. intros Hp Hk.
  destruct (next_outcome w).1 eqn:Hok.
  - destruct (decide (idx < length (OutputRefs b))) as [Hidx|Hidx].
    + rewrite storeImpl_stored in Hk by done.
      rewrite finalize_this in Hk. simpl in Hk.
      rewrite pendingSet_inserted in Hk by done.
      rewrite (storeImpl_incomplete _ _ _ _ _ _ p k) by done. simpl.
      destruct (next_outcome_logs w) as [-> ->]. done.
    + rewrite storeImpl_out_of_range; [|done|apply lookup_ge_None_2; lia].
      simpl. split; [apply next_outcome_logs | intros _ ?; lia].
  - rewrite storeImpl_store_fails by done. simpl.
    split; [apply next_outcome_logs | done].
Qed.


(** C6. Asking for an output at a path that the route table does not have
    stops with [RouteNotFound], the backend, the content store and the
    action cache being as they were: no call to either service is made. *)
Theorem createFileImpl_unknown_path path s :
  OutputToInputMap (this s) !! path = None →
  createFileImpl path s = (inl RouteNotFound, s).
Proof.
  intros Hnone. unfold createFileImpl, bind, get_this, fail. simpl.
  by rewrite Hnone.
Qed.

Lemma set_OutputRefs_id b : set_OutputRefs (OutputRefs b) b = b.
Proof. by destruct b. Qed.

Lemma inserted_present b idx kind ref :
  dm_count (pendingSet b idx) kind = true → inserted b idx kind ref = b.
Proof.
  intros Hk. unfold inserted. rewrite dm_insert_present by done.
  unfold pendingSet in *.
  destruct (OutputRefs b !! idx) eqn:E; [|done]. simpl.
  rewrite list_insert_id by done. apply set_OutputRefs_id.
Qed.

(** C7, as amended. A store for a kind that the pending set of the input
    already has leaves every pending set as it was: the kind keeps the
    reference of the earlier write. *)
Theorem store_present_kind_keeps_first Path Bytes idx kind s :
  dm_count (pendingSet (this s) idx) kind = true →
  OutputRefs (this (storeImpl Path Bytes idx kind s).2) = OutputRefs (this s)
  ∧ dm_find (pendingSet (this (storeImpl Path Bytes idx kind s).2) idx) kind
    = dm_find (pendingSet (this s) idx) kind.
Proof.
  destruct s as [b w]. simpl. intros Hk.
  assert (this (storeImpl Path Bytes idx kind (mkMachine b w)).2 = b) as ->;
    [|done].
  destruct (next_outcome w).1 eqn:Hok;
    [|by rewrite storeImpl_store_fails].
  destruct (decide (idx < length (OutputRefs b))) as [Hidx|Hidx].
  - rewrite storeImpl_stored by done. rewrite finalize_this. simpl.
    by apply inserted_present.
  - rewrite pendingSet_out_of_range in Hk by lia. done.
Qed.

Lemma registerResult_out_of_schema Key idx (outs : list (ID * ObjectRef)) k s :
  dm_count outs k = true → ¬ inClangSchema k →
  registerResult EmitPCM Key idx outs s = (inl EncodeError, s).
Proof.
  intros Hk Hschema. unfold registerResult, encodeResult. simpl.
  rewrite (clangOutputs_out_of_schema _ k); [done| |done].
  rewrite llvm_sort_perm. by apply dm_count_true.
Qed.

(** C4. On a backend for [EmitPCM], finalizing an input whose outputs are
    complete and hold a kind besides the clang module file, the cached
    diagnostics and the dependency list stops with [EncodeError]; the
    content store and the action cache are as before, so no entry was
    written for the input. *)
Theorem emitPCM_out_of_schema_fails idx s outs k :
  Action (this s) = EmitPCM →
  OutputRefs (this s) !! idx = Some outs →
  allOutputsEmitted (OutputToInputMap (this s)) idx outs = true →
  dm_count outs k = true →
  ¬ inClangSchema k →
  finalizeCacheKeysFor idx s = (inl EncodeError, s).
Proof.
  destruct s as [b w]. simpl. intros Hact Houts Hall Hk Hschema.
  assert (outs ≠ []) as Hne by (intros ->; discriminate).
  rewrite (finalize_complete _ _ _ outs) by done.
  rewrite Hact. by apply (registerResult_out_of_schema _ _ _ k).
Qed.

(** The same seen from [storeImpl]: the store that completes such a set
    ends with [EncodeError] after storing the bytes, and nothing is put
    in the action cache. *)
Lemma emitPCM_store_out_of_schema Path Bytes idx kind s k :
  Action (this s) = EmitPCM →
  (next_outcome (services s)).1 = true →
  idx < length (OutputRefs (this s)) →
  allOutputsEmitted (OutputToInputMap (this s)) idx
    (dm_insert (pendingSet (this s) idx) kind (Blob Bytes)) = true →
  dm_count (dm_insert (pendingSet (this s) idx) kind (Blob Bytes)) k = true →
  ¬ inClangSchema k →
  (storeImpl Path Bytes idx kind s).1 = inl EncodeError
  ∧ cache_entries (services (storeImpl Path Bytes idx kind s).2)
    = cache_entries (services s).
Proof.
  destruct s as [b w]. simpl. intros Hact Hok Hidx Hall Hk Hschema.
  rewrite storeImpl_stored by done.
  rewrite (finalize_complete _ _ _
             (dm_insert (pendingSet b idx) kind (Blob Bytes)));
    [|by apply lookup_inserted|apply dm_insert_nonempty|done].
  simpl. rewrite Hact.
  rewrite (registerResult_out_of_schema _ _ _ k) by done.
  simpl. split; [done|]. apply next_outcome_logs.
Qed.

End Properties.

(** ** Sequences of stores *)

Section Sequences.

Context `{FileTypes}.

Lemma next_outcome_quiet w : outcomes w = [] → next_outcome w = (true, w).
Proof. unfold next_outcome. by intros ->. Qed.

Lemma bind_ret_unit (c : M unit) s : bind c (λ _, ret ()) s = c s.
Proof. unfold bind, ret. by destruct (c s) as [[e|[]] s']. Qed.

(** With services that do not fail, registering a result appends the
    record and the key to the store and one entry to the cache. *)
Lemma registerResult_quiet Act Key idx outs b w :
  outcomes w = [] →
  registerResult Act Key idx outs (mkMachine b w) =
  match encodeResult Act outs with
  | None => (inl EncodeError, mkMachine b w)
  | Some rec =>
      (inr (), mkMachine b
                 (cached (CacheKey Key idx) rec
                    (stored (CacheKey Key idx) (stored rec w))))
  end.
Proof.
  intros Hq. unfold registerResult. destruct (encodeResult Act outs); [|done].
  unfold bind, createCompileJobCacheKeyForOutput, CAS_store, Cache_put.
  simpl. rewrite (next_outcome_quiet w) by done. simpl.
  rewrite next_outcome_quiet by done. simpl.
  by rewrite next_outcome_quiet.
Qed.

Lemma filled_inserted b idx q rest :
  idx < length (OutputRefs b) →
  dm_count (pendingSet b idx) (reqKind q) = false →
  filled (inserted b idx (reqKind q) (Blob (reqBytes q))) idx rest
  = filled b idx (q :: rest).
Proof.
  intros Hidx Hk. unfold filled. rewrite pendingSet_inserted by done.
  rewrite dm_insert_absent by done. unfold inserted, set_OutputRefs. simpl.
  rewrite list_insert_insert_eq. by rewrite <- app_assoc.
Qed.

Lemma filled_nil b idx : filled b idx [] = b.
Proof.
  unfold filled, pendingSet. simpl. rewrite app_nil_r.
  destruct (OutputRefs b !! idx) as [outs|] eqn:E; simpl.
  - rewrite list_insert_id by done. apply set_OutputRefs_id.
  - rewrite list_insert_ge by (by apply lookup_ge_None).
    apply set_OutputRefs_id.
Qed.

Lemma storedAll_nil w : storedAll [] w = w.
Proof. unfold storedAll. simpl. rewrite app_nil_r. by destruct w. Qed.

Lemma storedAll_stored q rest w :
  storedAll rest (stored (Blob (reqBytes q)) w) = storedAll (q :: rest) w.
Proof. unfold storedAll, stored. simpl. by rewrite <- app_assoc. Qed.

(** Requests for kinds of one input that are all declared and not yet
    pending, and that together complete the input: the run inserts them
    all and registers one result, at the last request. *)
Lemma storeAll_fills idx reqs : ∀ b w,
  outcomes w = [] → idx < length (OutputRefs b) →
  (∀ q, q ∈ reqs → reqInput q = idx) →
  NoDup (reqKind <$> reqs) →
  (∀ q, q ∈ reqs → dm_count (pendingSet b idx) (reqKind q) = false) →
  (∀ q, q ∈ reqs → ∃ p, OutputToInputMap b !! p = Some (idx, reqKind q)) →
  allOutputsEmitted (OutputToInputMap b) idx
    (pendingSet b idx ++ (reqEntry <$> reqs)) = true →
  reqs ≠ [] →
  storeAll reqs (mkMachine b w)
  = registerResult (Action b) (BaseKey b) idx
      (pendingSet b idx ++ (reqEntry <$> reqs))
      (mkMachine (filled b idx reqs) (storedAll reqs w)).
Proof.
  induction reqs as [|q rest IH]; intros b w Hq Hidx Hin Hnd Hfresh Hdecl Hall Hne;
    [done|].
  assert (reqInput q = idx) as Hqi by (apply Hin; left).
  assert (dm_count (pendingSet b idx) (reqKind q) = false) as Hqk
    by (apply Hfresh; left).
  rewrite fmap_cons in Hnd. apply NoDup_cons in Hnd as [Hqrest Hnd].
  assert (∀ q0, q0 ∈ rest → reqKind q0 ≠ reqKind q) as Hdiff.
  { intros q0 Hq0 Heq. apply Hqrest. rewrite <- Heq.
    by apply list_elem_of_fmap_2. }
  simpl storeAll. unfold bind at 1. rewrite Hqi.
  destruct rest as [|q' rest'].
  - rewrite storeImpl_stored by (by rewrite ?next_outcome_quiet).
    rewrite next_outcome_quiet by done. simpl.
    rewrite (finalize_complete _ _ _ (pendingSet b idx ++ [reqEntry q])).
    + rewrite <- (filled_inserted b idx q []) by done.
      rewrite <- storedAll_stored.
      rewrite filled_nil, storedAll_nil.
      simpl. by destruct (registerResult _ _ _ _ _) as [[e|[]] s'].
    + rewrite lookup_inserted by done. by rewrite dm_insert_absent.
    + by destruct (pendingSet b idx).
    + done.
  - destruct (Hdecl q') as [p Hp]; [right; left|].
    rewrite (storeImpl_incomplete _ _ _ _ _ _ p (reqKind q'));
      [|by rewrite next_outcome_quiet|done..| ].
    2:{ rewrite dm_insert_absent by done. apply dm_count_false.
        rewrite fmap_app. apply not_elem_of_app. split.
        - apply dm_count_false, Hfresh. right; left.
        - simpl. rewrite list_elem_of_singleton.
          apply Hdiff. left. }
    rewrite next_outcome_quiet by done. cbv beta iota. cbn [snd].
    rewrite IH.
    + rewrite filled_inserted, storedAll_stored by done.
      rewrite pendingSet_inserted, dm_insert_absent by done.
      by rewrite <- app_assoc.
    + done.
    + unfold inserted. simpl. by rewrite length_insert.
    + intros q0 Hq0. apply Hin. by right.
    + done.
    + intros q0 Hq0. rewrite pendingSet_inserted, dm_insert_absent by done.
      apply dm_count_false. rewrite fmap_app. apply not_elem_of_app. split.
      * apply dm_count_false, Hfresh. by right.
      * simpl. rewrite list_elem_of_singleton. by apply Hdiff.
    + intros q0 Hq0. apply Hdecl. by right.
    + rewrite pendingSet_inserted, dm_insert_absent by done.
      by rewrite <- app_assoc.
    + done.
Qed.

Lemma dm_count_perm (outs outs' : list (ID * ObjectRef)) k :
  outs ≡ₚ outs' → dm_count outs k = dm_count outs' k.
Proof.
  intros Hp. destruct (dm_count outs' k) eqn:E.
  - apply dm_count_true. rewrite Hp. by apply dm_count_true.
  - apply dm_count_false. rewrite Hp. by apply dm_count_false.
Qed.

Lemma allOutputsEmitted_perm map idx (outs outs' : list (ID * ObjectRef)) :
  outs ≡ₚ outs' →
  allOutputsEmitted map idx outs = allOutputsEmitted map idx outs'.
Proof.
  intros Hp. apply Bool.eq_true_iff_eq. rewrite !allOutputsEmitted_true.
  split; intros Hall p k Hpk;
    [rewrite <- (dm_count_perm _ _ _ Hp) | rewrite (dm_count_perm _ _ _ Hp)];
    eauto.
Qed.

Lemma reqEntry_kinds reqs : (reqEntry <$> reqs).*1 = reqKind <$> reqs.
Proof. by rewrite <- list_fmap_compose. Qed.

(** The record does not depend on the order of the requests. *)
Lemma encodeResult_perm Act reqs reqs' :
  NoDup (reqKind <$> reqs) → reqs' ≡ₚ reqs →
  encodeResult Act (reqEntry <$> reqs') = encodeResult Act (reqEntry <$> reqs).
Proof.
  intros Hnd Hp. unfold encodeResult.
  rewrite (llvm_sort_unique (reqEntry <$> reqs') (reqEntry <$> reqs)); [done| |].
  - rewrite reqEntry_kinds. by rewrite Hp.
  - by rewrite Hp.
Qed.

(** A run of requests for exactly the declared kinds of an input, each
    once, on services that do not fail. *)
Lemma storeAll_declared idx reqs b w :
  outcomes w = [] →
  OutputRefs b !! idx = Some [] →
  (∀ q, q ∈ reqs → reqInput q = idx) →
  NoDup (reqKind <$> reqs) →
  (∀ q, q ∈ reqs → ∃ p, OutputToInputMap b !! p = Some (idx, reqKind q)) →
  allOutputsEmitted (OutputToInputMap b) idx (reqEntry <$> reqs) = true →
  reqs ≠ [] →
  storeAll reqs (mkMachine b w)
  = match encodeResult (Action b) (reqEntry <$> reqs) with
    | None =>
        (inl EncodeError, mkMachine (filled b idx reqs) (storedAll reqs w))
    | Some rec =>
        (inr (), mkMachine (filled b idx reqs)
                   (cached (CacheKey (BaseKey b) idx) rec
                      (stored (CacheKey (BaseKey b) idx)
                         (stored rec (storedAll reqs w)))))
    end.
Proof.
  intros Hq Hnil Hin Hnd Hdecl Hall Hne.
  assert (pendingSet b idx = []) as Hpend by (unfold pendingSet; by rewrite Hnil).
  rewrite (storeAll_fills idx); try done.
  - rewrite Hpend. simpl. by rewrite registerResult_quiet.
  - by eapply lookup_lt_Some.
  - intros. by rewrite Hpend.
  - by rewrite Hpend.
Qed.

(** C3. Take an input with nothing pending, services that do not fail and
    requests for exactly the kinds that the route table declares for the
    input, each kind once. Served in any order, the requests give the
    same encoded record, hence the same reference, the same outcome and
    the same entries in the action cache; and when the record can be
    encoded, the run succeeds and the cache gains exactly the entry from
    the key of the input to that record. *)
Theorem encoding_order_independent idx reqs reqs' s :
  outcomes (services s) = [] →
  OutputRefs (this s) !! idx = Some [] →
  (∀ q, q ∈ reqs → reqInput q = idx) →
  NoDup (reqKind <$> reqs) →
  (∀ q, q ∈ reqs →
        ∃ p, OutputToInputMap (this s) !! p = Some (idx, reqKind q)) →
  allOutputsEmitted (OutputToInputMap (this s)) idx (reqEntry <$> reqs)
  = true →
  reqs' ≡ₚ reqs →
  encodeResult (Action (this s)) (reqEntry <$> reqs')
  = encodeResult (Action (this s)) (reqEntry <$> reqs)
  ∧ (storeAll reqs' s).1 = (storeAll reqs s).1
  ∧ cache_entries (services (storeAll reqs' s).2)
    = cache_entries (services (storeAll reqs s).2)
  ∧ (∀ rec, reqs ≠ [] →
       encodeResult (Action (this s)) (reqEntry <$> reqs) = Some rec →
       (storeAll reqs s).1 = inr ()
       ∧ cache_entries (services (storeAll reqs s).2)
         = cache_entries (services s)
           ++ [(CacheKey (BaseKey (this s)) idx, rec)]).
Proof.
  destruct s as [b w]. simpl.
  intros Hq Hnil Hin Hnd Hdecl Hall Hp.
  pose proof (encodeResult_perm (Action b) _ _ Hnd Hp) as Henc.
  split; [done|].
  destruct (decide (reqs = [])) as [->|Hne].
  { apply Permutation_nil_r in Hp as ->. done. }
  assert (reqs' ≠ []) as Hne'.
  { intros ->. by apply Permutation_nil_l in Hp. }
  rewrite (storeAll_declared idx reqs) by done.
  rewrite (storeAll_declared idx reqs'); try done.
  - rewrite Henc.
    destruct (encodeResult (Action b) (reqEntry <$> reqs)) as [rec|]; simpl.
    + split; [done|]. split; [done|]. by intros ? _ [= <-].
    + split; [done|]. split; [done|]. by intros ? _ ?.
  - intros q' Hq'. apply Hin. by rewrite <- Hp.
  - by rewrite Hp.
  - intros q' Hq'. apply Hdecl. by rewrite <- Hp.
  - rewrite <- Hall. apply allOutputsEmitted_perm. by rewrite Hp.
Qed.

(** *** How often an input is finalized *)

Lemma registerResult_cache Act Key idx outs s :
  cache_entries (services (registerResult Act Key idx outs s).2)
  = cache_entries (services s)
  ∨ ∃ rec, cache_entries (services (registerResult Act Key idx outs s).2)
           = cache_entries (services s) ++ [(CacheKey Key idx, rec)].
Proof.
  unfold registerResult, bind, fail, createCompileJobCacheKeyForOutput,
    CAS_store, Cache_put.
  destruct (encodeResult Act outs) as [rec|]; [|by left]. simpl.
  pose proof (next_outcome_logs (services s)) as [_ E1].
  destruct (next_outcome (services s)) as [[] w1]; simpl in *; [|by left].
  pose proof (next_outcome_logs (stored rec w1)) as [_ E2].
  destruct (next_outcome (stored rec w1)) as [[] w2]; simpl in *;
    [|left; congruence].
  pose proof (next_outcome_logs (stored (CacheKey Key idx) w2)) as [_ E3].
  destruct (next_outcome (stored _ w2)) as [[] w3]; simpl in *;
    [|left; congruence].
  right. exists rec. congruence.
Qed.

(** One store: the backend is as before or has the entry inserted, and
    the cache is as before or has one more entry, for the key of the
    input, whose declared kinds are then all pending. *)
Lemma storeImpl_step Path Bytes i k s :
  (this (storeImpl Path Bytes i k s).2 = this s
   ∨ i < length (OutputRefs (this s))
     ∧ this (storeImpl Path Bytes i k s).2
       = inserted (this s) i k (Blob Bytes))
  ∧ (cache_entries (services (storeImpl Path Bytes i k s).2)
     = cache_entries (services s)
     ∨ (∃ rec, cache_entries (services (storeImpl Path Bytes i k s).2)
               = cache_entries (services s)
                 ++ [(CacheKey (BaseKey (this s)) i, rec)])
       ∧ allOutputsEmitted (OutputToInputMap (this s)) i
           (pendingSet (this (storeImpl Path Bytes i k s).2) i) = true).
Proof.
  destruct s as [b w]. simpl.
  destruct (next_outcome w).1 eqn:Hok.
  2:{ rewrite storeImpl_store_fails by done. simpl.
      split; left; [done | apply next_outcome_logs]. }
  destruct (decide (i < length (OutputRefs b))) as [Hidx|Hidx].
  2:{ rewrite storeImpl_out_of_range; [|done|apply lookup_ge_None_2; lia].
      simpl. split; left; [done | apply next_outcome_logs]. }
  rewrite storeImpl_stored by done. rewrite finalize_this. simpl.
  split; [by right|].
  set (b1 := inserted b i k (Blob Bytes)).
  set (w1 := stored (Blob Bytes) (next_outcome w).2).
  assert (cache_entries w1 = cache_entries w) as Hw1
    by apply next_outcome_logs.
  assert (OutputRefs b1 !! i = Some (pendingSet b1 i)) as Hlook.
  { unfold pendingSet. subst b1. by rewrite lookup_inserted. }
  assert (pendingSet b1 i ≠ []) as Hne.
  { subst b1. rewrite pendingSet_inserted by done. apply dm_insert_nonempty. }
  destruct (allOutputsEmitted (OutputToInputMap b1) i (pendingSet b1 i))
    eqn:Hall.
  - rewrite (finalize_complete _ _ _ (pendingSet b1 i)) by done.
    destruct (registerResult_cache (Action b1) (BaseKey b1) i
                (pendingSet b1 i) (mkMachine b1 w1)) as [E|[rec E]];
      cbn [services] in E; rewrite E, Hw1; [by left|].
    right. split; [by exists rec | done].
  - rewrite (finalize_incomplete _ _ _ (pendingSet b1 i)) by done.
    by left.
Qed.

Lemma putsFor_snoc j log Key i rec :
  putsFor j (log ++ [(CacheKey Key i, rec)])
  = putsFor j log ++ (if decide (i = j) then [(CacheKey Key i, rec)] else []).
Proof.
  unfold putsFor. rewrite filter_app. f_equal.
  rewrite filter_cons, filter_nil. unfold keyInput. simpl.
  repeat case_decide; congruence.
Qed.

Lemma dm_count_insert_ne (m : list (ID * ObjectRef)) k v k' :
  k ≠ k' → dm_count (dm_insert m k v) k' = dm_count m k'.
Proof.
  intros Hne. unfold dm_insert. destruct (dm_count m k); [done|].
  apply Bool.eq_true_iff_eq. rewrite !dm_count_true, fmap_app, elem_of_app.
  simpl. rewrite list_elem_of_singleton. split; [|by left].
  intros [?|?]; [done|]. by subst.
Qed.

(** The requests that a store of another route leaves as they were: not
    pending yet. *)
Lemma fresh_after_store Path Bytes i k s q :
  reqRoute q ≠ (i, k) →
  dm_count (pendingSet (this s) (reqInput q)) (reqKind q) = false →
  dm_count (pendingSet (this (storeImpl Path Bytes i k s).2) (reqInput q))
    (reqKind q) = false.
Proof.
  intros Hne Hfresh.
  destruct (storeImpl_step Path Bytes i k s) as [[->|[Hidx ->]] _]; [done|].
  destruct (decide (i = reqInput q)) as [->|Hi].
  - rewrite pendingSet_inserted by done. rewrite dm_count_insert_ne; [done|].
    intros ->. by destruct q.
  - by rewrite pendingSet_inserted_ne.
Qed.

Lemma table_after_store Path Bytes i k s :
  OutputToInputMap (this (storeImpl Path Bytes i k s).2)
  = OutputToInputMap (this s).
Proof.
  by destruct (storeImpl_step Path Bytes i k s) as [[->|[Hidx ->]] _].
Qed.

Lemma storeAll_cons q rest s :
  storeAll (q :: rest) s
  = match (storeImpl "" (reqBytes q) (reqInput q) (reqKind q) s).1 with
    | inr _ =>
        storeAll rest
          (storeImpl "" (reqBytes q) (reqInput q) (reqKind q) s).2
    | inl e =>
        (inl e, (storeImpl "" (reqBytes q) (reqInput q) (reqKind q) s).2)
    end.
Proof.
  simpl. unfold bind.
  by destruct (storeImpl _ _ _ _ s) as [[e|[]] s1].
Qed.

(** Requests for other inputs put nothing under the key of [j]. *)
Lemma storeAll_other_inputs j reqs : ∀ s,
  (∀ q, q ∈ reqs → reqInput q ≠ j) →
  putsFor j (cache_entries (services (storeAll reqs s).2))
  = putsFor j (cache_entries (services s)).
Proof.
  induction reqs as [|q rest IH]; intros s Hother; [done|].
  rewrite storeAll_cons.
  assert (putsFor j (cache_entries (services
            (storeImpl "" (reqBytes q) (reqInput q) (reqKind q) s).2))
          = putsFor j (cache_entries (services s))) as Hstep.
  { destruct (storeImpl_step "" (reqBytes q) (reqInput q) (reqKind q) s)
      as [_ [->|[[rec ->] _]]]; [done|].
    rewrite putsFor_snoc. rewrite decide_False by (apply Hother; left).
    by rewrite app_nil_r. }
  destruct (storeImpl _ _ _ _ s).1; simpl; [done|].
  rewrite IH; [done|]. intros q' Hq'. apply Hother. by right.
Qed.

(** *** A declared kind is awaited *)






(** On services that do not fail, every store that leaves the declared
    kinds of its input all pending registers a result, whether or not the
    input was finalized before. *)
Lemma store_on_complete_input_puts Path Bytes idx kind b w rec :
  outcomes w = [] → idx < length (OutputRefs b) →
  allOutputsEmitted (OutputToInputMap b) idx
    (dm_insert (pendingSet b idx) kind (Blob Bytes)) = true →
  encodeResult (Action b) (dm_insert (pendingSet b idx) kind (Blob Bytes))
  = Some rec →
  (storeImpl Path Bytes idx kind (mkMachine b w)).1 = inr ()
  ∧ cache_entries (services (storeImpl Path Bytes idx kind (mkMachine b w)).2)
    = cache_entries w ++ [(CacheKey (BaseKey b) idx, rec)].
Proof.
  intros Hq Hidx Hall Henc.
  rewrite storeImpl_stored by (by rewrite ?next_outcome_quiet).
  rewrite next_outcome_quiet by done. simpl.
  rewrite (finalize_complete _ _ _
             (dm_insert (pendingSet b idx) kind (Blob Bytes)));
    [|by apply lookup_inserted|apply dm_insert_nonempty|done].
  rewrite registerResult_quiet by done. simpl. by rewrite Henc.
Qed.

(** C2, as amended. In a run of stores in which every request brings a
    kind that the route table declares for its input and that is not yet
    in the pending set of the input, no route being requested twice, at
    most one entry is put under the key of an input. *)
Theorem declared_fresh_stores_put_once j reqs : ∀ s,
  NoDup (reqRoute <$> reqs) →
  (∀ q, q ∈ reqs → ∃ p, OutputToInputMap (this s) !! p = Some (reqRoute q)) →
  (∀ q, q ∈ reqs →
        dm_count (pendingSet (this s) (reqInput q)) (reqKind q) = false) →
  (length (putsFor j (cache_entries (services (storeAll reqs s).2)))
   ≤ S (length (putsFor j (cache_entries (services s)))))%nat.
Proof.
  induction reqs as [|q rest IH]; intros s Hnd Hdecl Hfresh; [simpl; lia|].
  rewrite fmap_cons in Hnd. apply NoDup_cons in Hnd as [Hq Hnd].
  rewrite storeAll_cons.
  set (s1 := (storeImpl "" (reqBytes q) (reqInput q) (reqKind q) s).2).
  assert (∀ q', q' ∈ rest →
            dm_count (pendingSet (this s1) (reqInput q')) (reqKind q') = false)
    as Hfresh1.
  { intros q' Hq'. apply fresh_after_store; [|apply Hfresh; by right].
    intros Heq. apply Hq. change (reqRoute q' = reqRoute q) in Heq.
    rewrite <- Heq. by apply list_elem_of_fmap_2. }
  assert (∀ q', q' ∈ rest →
            ∃ p, OutputToInputMap (this s1) !! p = Some (reqRoute q'))
    as Hdecl1.
  { intros q' Hq'. subst s1. rewrite table_after_store. apply Hdecl.
    by right. }
  specialize (IH s1 Hnd Hdecl1 Hfresh1).
  destruct (storeImpl_step "" (reqBytes q) (reqInput q) (reqKind q) s)
    as [_ Hcache]. fold s1 in Hcache.
  destruct Hcache as [E|[[rec E] Hall]].
  { destruct (storeImpl _ _ _ _ s).1; simpl; rewrite <- E; [lia|done]. }
  destruct (decide (reqInput q = j)) as [Hj|Hj].
  - assert (length (putsFor j (cache_entries (services s1)))
            = S (length (putsFor j (cache_entries (services s))))) as Hone.
    { rewrite E, putsFor_snoc, decide_True by done.
      rewrite length_app. simpl. lia. }
    destruct (storeImpl _ _ _ _ s).1; simpl; [lia|].
    rewrite storeAll_other_inputs; [lia|].
    intros q' Hq' Hq'j.
    destruct (Hdecl q') as [p Hp]; [by right|].
    rewrite allOutputsEmitted_true in Hall.
    specialize (Hall p (reqKind q')).
    rewrite Hj, <- Hq'j in Hall. specialize (Hall Hp).
    rewrite Hfresh1 in Hall; done.
  - assert (putsFor j (cache_entries (services s1))
            = putsFor j (cache_entries (services s))) as Hsame.
    { rewrite E, putsFor_snoc, decide_False by done. by rewrite app_nil_r. }
    destruct (storeImpl _ _ _ _ s).1; simpl; rewrite <- Hsame; [lia|done].
Qed.

End Sequences.

(** ** The route table, diagnostics and clones *)

Section Construction.

Context `{FileTypes}.

Lemma addInput_routes mainOutputType Input Index map :
  addInput mainOutputType Input Index map
  = insertRoutes (inputRoutes mainOutputType Input Index) map.
Proof.
  unfold addInput, inputRoutes, insertRoutes. rewrite foldl_app.
  assert (foldl (λ m r, sm_insert r.1 r.2 m) map
            (if decide (outputFilename Input = "") then []
             else [(outputFilename Input, (Index, mainOutputType))])
          = if decide (outputFilename Input = "") then map
            else sm_insert (outputFilename Input) (Index, mainOutputType) map)
    as -> by (by case_decide).
  generalize (if decide (outputFilename Input = "") then map
              else sm_insert (outputFilename Input) (Index, mainOutputType)
                     map).
  induction (SupplementaryOutputs Input) as [|out outs IH]; intros m; [done|].
  simpl. destruct (isProducedFromDiagnostics out.2); simpl; apply IH.
Qed.

Lemma addInputs_routes mainOutputType inputs : ∀ idx map,
  addInputs mainOutputType inputs idx map
  = insertRoutes (inputsRoutes mainOutputType inputs idx) map.
Proof.
  induction inputs as [|Input rest IH]; intros idx map; [done|].
  simpl. rewrite IH, addInput_routes. unfold insertRoutes.
  by rewrite foldl_app.
Qed.

Lemma insertRoutes_lookup routes : ∀ map p,
  insertRoutes routes map !! p
  = match map !! p with
    | Some r => Some r
    | None => firstRoute routes p
    end.
Proof.
  induction routes as [|[p0 r0] routes IH]; intros map p.
  { simpl. by destruct (map !! p). }
  unfold insertRoutes in *. simpl. rewrite IH, sm_insert_lookup.
  unfold firstRoute. simpl.
  destruct (map !! p); [done|].
  destruct (decide (p0 = p)) as [->|Hne].
  - by rewrite bool_decide_eq_true_2.
  - by rewrite bool_decide_eq_false_2.
Qed.

Lemma newImplementation_table Key IO Act :
  OutputToInputMap (newImplementation Key IO Act)
  = insertRoutes (plannedRoutes IO) ∅.
Proof.
  unfold newImplementation, initBackend, plannedRoutes. simpl.
  rewrite addInputs_routes. unfold insertRoutes. by rewrite foldl_app.
Qed.


(** C8, as amended. Building the route table does not fail on a path
    that the plan yields twice: the constructor returns a backend for
    every plan, and its table gives each path the first route inserted
    for it, the later ones being dropped. *)
Theorem route_table_keeps_first_route Key IO Act path :
  OutputToInputMap (newImplementation Key IO Act) !! path
  = firstRoute (plannedRoutes IO) path.
Proof.
  rewrite newImplementation_table, insertRoutes_lookup.
  by rewrite lookup_empty.
Qed.


(** Where a planned route comes from. *)
Lemma firstRoute_Some routes path r :
  firstRoute routes path = Some r → (path, r) ∈ routes.
Proof.
  unfold firstRoute. induction routes as [|[p r0] routes IH]; simpl; [done|].
  destruct (decide (p = path)) as [->|Hne].
  - rewrite bool_decide_eq_true_2 by done. simpl. intros [= ->]. left.
  - rewrite bool_decide_eq_false_2 by done. intros Hr. right. by apply IH.
Qed.

Lemma elem_of_inputRoutes mainOutputType Input Index path idx kind :
  (path, (idx, kind)) ∈ inputRoutes mainOutputType Input Index →
  idx = Index
  ∧ (path = outputFilename Input ∧ path ≠ "" ∧ kind = mainOutputType
     ∨ (path, kind) ∈ SupplementaryOutputs Input
       ∧ isProducedFromDiagnostics kind = false).
Proof.
  unfold inputRoutes. rewrite elem_of_app. intros [Hmain|Hsupp].
  - case_decide as Hempty; [by apply elem_of_nil in Hmain|].
    apply list_elem_of_singleton in Hmain. injection Hmain as -> -> ->.
    split; [done|]. by left.
  - apply list_elem_of_omap in Hsupp as ([p k] & Hin & Hout). simpl in Hout.
    destruct (isProducedFromDiagnostics k) eqn:Hdiag; [done|].
    injection Hout as <- <- <-. split; [done|]. by right.
Qed.

Lemma elem_of_inputsRoutes mainOutputType inputs : ∀ start path idx kind,
  (path, (idx, kind)) ∈ inputsRoutes mainOutputType inputs start →
  ∃ Input, (start ≤ idx)%nat ∧ inputs !! (idx - start) = Some Input
    ∧ (path = outputFilename Input ∧ path ≠ "" ∧ kind = mainOutputType
       ∨ (path, kind) ∈ SupplementaryOutputs Input
         ∧ isProducedFromDiagnostics kind = false).
Proof.
  induction inputs as [|Input rest IH]; intros start path idx kind; simpl.
  { intros Hin. by apply elem_of_nil in Hin. }
  rewrite elem_of_app. intros [Hhere|Hrest].
  - apply elem_of_inputRoutes in Hhere as [-> Hroute].
    exists Input. rewrite Nat.sub_diag. by repeat split.
  - apply IH in Hrest as (Input' & Hle & Hlook & Hroute).
    exists Input'. split; [lia|]. split; [|done].
    replace (idx - start) with (S (idx - S start)) by lia. done.
Qed.

(** *** Diagnostics *)

Lemma registerResult_cas Act Key idx outs s :
  cas_objects (services s)
    `prefix_of` cas_objects (services (registerResult Act Key idx outs s).2).
Proof.
  unfold registerResult, bind, fail, createCompileJobCacheKeyForOutput,
    CAS_store, Cache_put.
  destruct (encodeResult Act outs) as [rec|]; [|done]. simpl.
  pose proof (next_outcome_logs (services s)) as [E1 _].
  destruct (next_outcome (services s)) as [[] w1]; simpl in *;
    [|by rewrite E1].
  pose proof (next_outcome_logs (stored rec w1)) as [E2 _].
  destruct (next_outcome (stored rec w1)) as [[] w2]; simpl in *;
    [|rewrite E2, E1; by apply prefix_app_r].
  pose proof (next_outcome_logs (stored (CacheKey Key idx) w2)) as [E3 _].
  destruct (next_outcome (stored _ w2)) as [[] w3]; simpl in *;
    rewrite E3, E2, E1, <- app_assoc; by apply prefix_app_r.
Qed.

Lemma finalize_cas idx s :
  cas_objects (services s)
    `prefix_of` cas_objects (services (finalizeCacheKeysFor idx s).2).
Proof.
  destruct s as [b w].
  destruct (OutputRefs b !! idx) as [outs|] eqn:E;
    [|by rewrite finalize_out_of_range].
  destruct (decide (outs = [])) as [->|Hne].
  { unfold finalizeCacheKeysFor, bind, get_this. simpl. by rewrite E. }
  destruct (allOutputsEmitted (OutputToInputMap b) idx outs) eqn:Hall.
  - rewrite (finalize_complete _ _ _ outs) by done.
    apply registerResult_cas.
  - by rewrite (finalize_incomplete _ _ _ outs).
Qed.

Lemma pendingSet_new Key IO Act i :
  pendingSet (newImplementation Key IO Act) i = [].
Proof.
  unfold pendingSet, newImplementation, initBackend. simpl.
  destruct (replicate _ _ !! i) as [outs|] eqn:E; [|done].
  by apply lookup_replicate in E as [-> _].
Qed.




(** *** Clones *)

(** C10. The clone of a backend is a new backend of the process on the
    same services, with the base key, the plan and the action of the
    original and with every pending set empty, whatever the original has
    stored so far. The two do not share pending state: a method run on
    one of them leaves the other as it is. *)
Theorem clone_has_fresh_pending_state h p b :
  backends p !! h = Some b →
  clone h p = (Some (length (backends p)),
               mkProcess (backends p ++ [cloneImpl b]) (shared p))
  ∧ BaseKey (cloneImpl b) = BaseKey b
  ∧ InputsAndOutputs (cloneImpl b) = InputsAndOutputs b
  ∧ Action (cloneImpl b) = Action b
  ∧ OutputRefs (cloneImpl b)
    = replicate (length (getAllInputs (InputsAndOutputs b))) []
  ∧ (∀ i, pendingSet (cloneImpl b) i = [])
  ∧ (∀ A (m : M A),
       backends (call h m (clone h p).2).2 !! length (backends p)
       = Some (cloneImpl b))
  ∧ (∀ A (m : M A),
       backends (call (length (backends p)) m (clone h p).2).2 !! h
       = Some b)
  ∧ shared (clone h p).2 = shared p.
Proof.
  intros Hb. pose proof (lookup_lt_Some _ _ _ Hb) as Hlt.
  unfold clone. rewrite Hb. simpl.
  repeat split; try done.
  - intros i. apply pendingSet_new.
  - intros A m. unfold call. simpl.
    rewrite lookup_app_l, Hb by done.
    destruct (m _) as [r s']. simpl.
    rewrite list_lookup_insert_ne by lia.
    rewrite lookup_app_r by lia. by rewrite Nat.sub_diag.
  - intros A m. unfold call. simpl.
    rewrite lookup_app_r by lia. rewrite Nat.sub_diag. simpl.
    destruct (m _) as [r s']. simpl.
    rewrite list_lookup_insert_ne by lia.
    by rewrite lookup_app_l.
Qed.

End Construction.

(** * The properties on the sample plan *)

Ltac each_member H :=
  repeat (apply elem_of_cons in H as [->|H]); [..|by apply elem_of_nil in H].

Ltac by_computation := vm_compute; reflexivity.

Lemma store_writes_cache_only_when_complete_witness :
  let r := storeImpl (H := sampleTypes) "a.o" "AA" 0 10 sampleMachine in
  cache_entries (services r.2) = cache_entries (services sampleMachine)
  ∧ ((next_outcome (services sampleMachine)).1 = true →
     0 < length (OutputRefs (this sampleMachine)) →
     r.1 = inr ()
     ∧ cas_objects (services r.2)
       = cas_objects (services sampleMachine) ++ [Blob "AA"]).
Proof.
  apply (store_writes_cache_only_when_complete (H := sampleTypes)
           "a.o" "AA" 0 10 sampleMachine "a.d" 5); by_computation.
Defined.

Lemma declared_fresh_stores_put_once_witness :
  (length (putsFor 0 (cache_entries (services
     (storeAll (H := sampleTypes) bothInputsRequests sampleMachine).2)))
   ≤ S (length (putsFor 0 (cache_entries (services sampleMachine)))))%nat.
Proof.
  apply (declared_fresh_stores_put_once (H := sampleTypes) 0
           bothInputsRequests sampleMachine).
  - apply (bool_decide_unpack _). by_computation.
  - intros q Hq. each_member Hq;
      [exists "a.o" | exists "b.o" | exists "a.d"
      | exists "<cached-diagnostics>"]; by_computation.
  - intros q Hq. each_member Hq; by_computation.
Defined.

Lemma encoding_order_independent_witness :
  let s := sampleMachine in
  encodeResult (H := sampleTypes) (Action (this s))
    (reqEntry <$> firstInputRequests')
  = encodeResult (H := sampleTypes) (Action (this s))
      (reqEntry <$> firstInputRequests)
  ∧ (storeAll (H := sampleTypes) firstInputRequests' s).1
    = (storeAll (H := sampleTypes) firstInputRequests s).1
  ∧ cache_entries (services (storeAll (H := sampleTypes) firstInputRequests' s).2)
    = cache_entries (services (storeAll (H := sampleTypes) firstInputRequests s).2)
  ∧ (∀ rec, firstInputRequests ≠ [] →
       encodeResult (H := sampleTypes) (Action (this s))
         (reqEntry <$> firstInputRequests) = Some rec →
       (storeAll (H := sampleTypes) firstInputRequests s).1 = inr ()
       ∧ cache_entries (services (storeAll (H := sampleTypes) firstInputRequests s).2)
         = cache_entries (services s) ++ [(CacheKey (BaseKey (this s)) 0, rec)]).
Proof.
  apply (encoding_order_independent (H := sampleTypes) 0
           firstInputRequests firstInputRequests' sampleMachine).
  - reflexivity.
  - by_computation.
  - intros q Hq. each_member Hq; reflexivity.
  - apply (bool_decide_unpack _). by_computation.
  - intros q Hq. each_member Hq;
      [exists "a.o" | exists "a.d" | exists "<cached-diagnostics>"];
      by_computation.
  - by_computation.
  - apply (Permutation_cons_append [_; _]).
Defined.

Lemma emitPCM_out_of_schema_fails_witness :
  finalizeCacheKeysFor (H := sampleTypes) 0 pcmMachine
  = (inl EncodeError, pcmMachine).
Proof.
  apply (emitPCM_out_of_schema_fails (H := sampleTypes) 0 pcmMachine
           [(30%N, Blob "PCM"); (40%N, Blob "DIAG"); (7%N, Blob "X")] 7).
  - reflexivity.
  - by_computation.
  - by_computation.
  - reflexivity.
  - intros [E|[E|E]]; discriminate E.
Defined.


Lemma createFileImpl_unknown_path_witness :
  createFileImpl (H := sampleTypes) "c.o" sampleMachine
  = (inl RouteNotFound, sampleMachine).
Proof.
  apply (createFileImpl_unknown_path (H := sampleTypes) "c.o" sampleMachine).
  by_computation.
Defined.

Lemma store_present_kind_keeps_first_witness :
  let s := (storeImpl (H := sampleTypes) "a.o" "AA" 0 10 sampleMachine).2 in
  let r := storeImpl (H := sampleTypes) "a.o" "BB" 0 10 s in
  OutputRefs (this r.2) = OutputRefs (this s)
  ∧ dm_find (pendingSet (this r.2) 0) 10 = dm_find (pendingSet (this s) 0) 10.
Proof.
  apply (store_present_kind_keeps_first (H := sampleTypes) "a.o" "BB" 0 10
           (storeImpl (H := sampleTypes) "a.o" "AA" 0 10 sampleMachine).2).
  by_computation.
Defined.


Lemma clone_has_fresh_pending_state_witness :
  let b := this (storeImpl (H := sampleTypes) "a.o" "AA" 0 10 sampleMachine).2 in
  let p := mkProcess [b] quietWorld in
  clone (H := sampleTypes) 0 p
  = (Some 1, mkProcess [b; cloneImpl (H := sampleTypes) b] quietWorld)
  ∧ pendingSet b 0 = [(10%N, Blob "AA")]
  ∧ pendingSet (cloneImpl (H := sampleTypes) b) 0 = [].
Proof.
  pose proof (clone_has_fresh_pending_state (H := sampleTypes) 0
                (mkProcess
                   [this (storeImpl (H := sampleTypes) "a.o" "AA" 0 10
                            sampleMachine).2] quietWorld)
                _ eq_refl) as (Hclone & _ & _ & _ & _ & Hempty & _).
  split; [exact Hclone|]. split; [reflexivity | apply Hempty].
Defined.

(** After a failed store of the object file of the second sample input, the
    same request made again finalizes the input. *)
Example retry_after_store_failure_completes :
  let s := (storeImpl (H := sampleTypes) "b.o" "BB" 1 10
              (mkMachine sampleBackend failingWorld)).2 in
  let r := storeImpl (H := sampleTypes) "b.o" "BB" 1 10 s in
  pendingSet (this s) 1 = []
  ∧ r.1 = inr ()
  ∧ cache_entries (services r.2)
    = [(CacheKey (Foreign 1) 1, SwiftResult [(10%N, Blob "BB")])].
Proof. vm_compute. repeat split. Qed.

(** The object file of the first sample input alone does not finalize it;
    an output that was discarded leaves no trace. *)
Example first_output_alone_is_not_registered :
  let r := (let* f := createFileImpl (H := sampleTypes) "a.o" in
            keep (H := sampleTypes) (write f "AA")) sampleMachine in
  r.1 = inr ()
  ∧ pendingSet (this r.2) 0 = [(10%N, Blob "AA")]
  ∧ cache_entries (services r.2) = []
  ∧ (let* f := createFileImpl (H := sampleTypes) "a.o" in
     discard (write f "AA")) sampleMachine = (inr (), sampleMachine).
Proof. vm_compute. repeat split. Qed.

(** When the principal output is produced from diagnostics, keeping the
    main output, the dependency list and the cached diagnostics leaves the
    input waiting for the kind of the main output: nothing is put in the
    cache until that kind is stored directly. *)
Example diagnostics_main_output_is_awaited :
  let s := (let* _ := keepAll (H := sampleTypes)
                        [("a.dia", "warning"); ("a.d", "DD")] in
            storeCachedDiagnostics (H := sampleTypes) 0 "diag")
             diagnosticsMachine in
  let r := storeImpl (H := sampleTypes) "a.dia" "warning" 0 20 s.2 in
  OutputToInputMap (this diagnosticsMachine) !! "a.dia" = Some (0, 20%N)
  ∧ s.1 = inr ()
  ∧ pendingSet (this s.2) 0 = [(5%N, Blob "DD"); (40%N, Blob "diag")]
  ∧ cas_objects (services s.2) = [Blob "DD"; Blob "diag"]
  ∧ cache_entries (services s.2) = []
  ∧ r.1 = inr ()
  ∧ cache_entries (services r.2)
    = [(CacheKey (Foreign 4) 0,
        SwiftResult [(5%N, Blob "DD"); (20%N, Blob "warning");
                     (40%N, Blob "diag")])].
Proof. vm_compute. repeat split. Qed.

(** A second call of [storeCachedDiagnostics] for an input stores the new
    bytes, and the pending set keeps the reference of the first call. *)
Example second_cached_diagnostics_are_not_entered :
  let s := (storeCachedDiagnostics (H := sampleTypes) 0 "d1" sampleMachine).2 in
  let r := storeCachedDiagnostics (H := sampleTypes) 0 "d2" s in
  r.1 = inr ()
  ∧ cas_objects (services r.2) = [Blob "d1"; Blob "d2"]
  ∧ pendingSet (this r.2) 0 = [(40%N, Blob "d1")].
Proof. vm_compute. repeat split. Qed.

(** * Where the backend departs from the design document *)

(** C2 does not hold as stated. The second sample input declares its object
    file only. Two successful stores of that output finalize the input
    twice: the cache log has two entries under the key of the input. *)
Lemma second_store_puts_again :
  let r := storeAll (H := sampleTypes)
             [mkStore 1 10 "BB"; mkStore 1 10 "BB"] sampleMachine in
  r.1 = inr ()
  ∧ cache_entries (services r.2)
    = [(CacheKey (Foreign 1) 1, SwiftResult [(10%N, Blob "BB")]);
       (CacheKey (Foreign 1) 1, SwiftResult [(10%N, Blob "BB")])]
  ∧ length (putsFor 1 (cache_entries (services r.2))) = 2.
Proof. vm_compute. repeat split. Qed.

(** C7 does not hold as stated. A second successful store of the object
    file of the first sample input puts the new bytes in the content store,
    and the pending set keeps the reference of the first write. *)
Lemma later_write_does_not_overwrite :
  let s := (storeImpl (H := sampleTypes) "a.o" "AA" 0 10 sampleMachine).2 in
  let r := storeImpl (H := sampleTypes) "a.o" "BB" 0 10 s in
  dm_find (pendingSet (this s) 0) 10 = Some (Blob "AA")
  ∧ r.1 = inr ()
  ∧ cas_objects (services r.2) = [Blob "AA"; Blob "BB"]
  ∧ dm_find (pendingSet (this r.2) 0) 10 = Some (Blob "AA")
  ∧ dm_find (pendingSet (this r.2) 0) 10 ≠ Some (Blob "BB").
Proof. vm_compute. repeat split. discriminate. Qed.

(** C8 does not hold as stated. The plan that sends the main output of both
    inputs to [-] yields that path for two routes; the constructor returns
    a backend all the same, whose table has the route of the first input,
    and an output can be created at the path. *)
Lemma duplicate_path_builds_a_table :
  let b := newImplementation (H := sampleTypes) (Foreign 1) stdoutPlan
             (OtherAction 0) in
  plannedRoutes (H := sampleTypes) stdoutPlan
  = [("-", (0, 10%N)); ("-", (1, 10%N)); ("<cached-diagnostics>", (0, 40%N))]
  ∧ OutputToInputMap b !! "-" = Some (0, 10%N)
  ∧ OutputRefs b = [[]; []]
  ∧ createFileImpl (H := sampleTypes) "-" (mkMachine b quietWorld)
    = (inr (SwiftCASOutputFile "-" "" 0 10), mkMachine b quietWorld).
Proof. vm_compute. repeat split. Qed.


(** * Further properties of the backend *)

Section RouteTable.

Context `{FileTypes}.

Lemma firstRoute_None routes path :
  firstRoute routes path = None ↔ path ∉ routes.*1.
Proof.
  unfold firstRoute. induction routes as [|[p r] routes IH]; simpl.
  { split; [intros _ Hin; by apply elem_of_nil in Hin | done]. }
  rewrite not_elem_of_cons. destruct (decide (p = path)) as [->|Hne].
  - rewrite bool_decide_eq_true_2 by done. simpl. split; [done|].
    by intros [? _].
  - rewrite bool_decide_eq_false_2 by done. rewrite IH. split; [|tauto].
    intros Hnin. split; [congruence|done].
Qed.

(** X1. On a backend as the constructor built it, asking for an output
    stops with [RouteNotFound] exactly when the path is none of the paths
    for which [initBackend] inserts a route. *)
Theorem createFileImpl_fails_iff_unplanned Key IO Act w path :
  (createFileImpl path (mkMachine (newImplementation Key IO Act) w)).1
  = inl RouteNotFound
  ↔ path ∉ (plannedRoutes IO).*1.
Proof.
  rewrite <- firstRoute_None.
  unfold createFileImpl, bind, get_this, fail, ret. cbn [this].
  rewrite newImplementation_table, insertRoutes_lookup, lookup_empty.
  destruct (firstRoute (plannedRoutes IO) path) as [[idx kind]|]; [|done].
  by destruct (isProducedFromDiagnostics kind).
Qed.

(** X2. Every route of the table of a fresh backend comes from the plan: it
    sends the path to an input of the plan, for its main output with the
    principal output type or for one of its supplementary outputs of a
    kind that is not produced from diagnostics, or it is the route of the
    cached diagnostics. *)
Theorem table_routes_are_planned Key IO Act path idx kind :
  OutputToInputMap (newImplementation Key IO Act) !! path = Some (idx, kind) →
  (∃ Input, getAllInputs IO !! idx = Some Input
     ∧ (path = outputFilename Input ∧ path ≠ ""
        ∧ kind = getPrincipalOutputType IO
        ∨ (path, kind) ∈ SupplementaryOutputs Input
          ∧ isProducedFromDiagnostics kind = false))
  ∨ (path = "<cached-diagnostics>"
     ∧ idx = getIndexOfFirstOutputProducingInput IO
     ∧ kind = TY_CachedDiagnostics).
Proof.
  rewrite newImplementation_table, insertRoutes_lookup, lookup_empty.
  intros Hroute%firstRoute_Some. unfold plannedRoutes in Hroute.
  apply elem_of_app in Hroute as [Hplan|Hdiag].
  - left. apply elem_of_inputsRoutes in Hplan as (Input & _ & Hlook & Hr).
    rewrite Nat.sub_0_r in Hlook. by exists Input.
  - right. apply list_elem_of_singleton in Hdiag. by injection Hdiag as -> -> ->.
Qed.

End RouteTable.

Section Stores.

Context `{FileTypes}.

(** How registering a result can end: without a record, with an error of a
    service and the cache as before, or with the record and the key stored
    and the entry put. *)
Lemma registerResult_outcome Act Key idx outs s :
  let r := registerResult Act Key idx outs s in
  this r.2 = this s
  ∧ cas_objects (services s) `prefix_of` cas_objects (services r.2)
  ∧ (encodeResult Act outs = None ∧ r = (inl EncodeError, s)
     ∨ (∃ rec, encodeResult Act outs = Some rec
          ∧ (r.1 = inl StoreError ∨ r.1 = inl CacheWriteError)
          ∧ cache_entries (services r.2) = cache_entries (services s))
     ∨ (∃ rec, encodeResult Act outs = Some rec
          ∧ r.1 = inr ()
          ∧ cas_objects (services r.2)
            = cas_objects (services s) ++ [rec; CacheKey Key idx]
          ∧ cache_entries (services r.2)
            = cache_entries (services s) ++ [(CacheKey Key idx, rec)])).
Proof.
  simpl. split; [apply registerResult_this|]. split; [apply registerResult_cas|].
  unfold registerResult, bind, fail, createCompileJobCacheKeyForOutput,
    CAS_store, Cache_put.
  destruct (encodeResult Act outs) as [rec|]; [|by left]. right. simpl.
  pose proof (next_outcome_logs (services s)) as [C1 E1].
  destruct (next_outcome (services s)) as [[] w1]; simpl in *;
    [|left; exists rec; auto].
  pose proof (next_outcome_logs (stored rec w1)) as [C2 E2].
  destruct (next_outcome (stored rec w1)) as [[] w2]; simpl in *;
    [|left; exists rec; split; [done|]; split; [by left|congruence]].
  pose proof (next_outcome_logs (stored (CacheKey Key idx) w2)) as [C3 E3].
  destruct (next_outcome (stored _ w2)) as [[] w3]; simpl in *.
  - right. exists rec. split; [done|]. split; [done|]. split.
    + rewrite C3, C2, C1. by rewrite <- app_assoc.
    + congruence.
  - left. exists rec. split; [done|]. split; [by right|congruence].
Qed.

(** The four ways a store can go. *)
Lemma storeImpl_cases Path Bytes idx kind b w :
  let b1 := inserted b idx kind (Blob Bytes) in
  let w1 := stored (Blob Bytes) (next_outcome w).2 in
  (next_outcome w).1 = false
  ∧ storeImpl Path Bytes idx kind (mkMachine b w)
    = (inl StoreError, mkMachine b (next_outcome w).2)
  ∨ (next_outcome w).1 = true ∧ (length (OutputRefs b) ≤ idx)%nat
    ∧ storeImpl Path Bytes idx kind (mkMachine b w)
      = (inl (AssertionFailure "idx < size()"), mkMachine b w1)
  ∨ (next_outcome w).1 = true ∧ idx < length (OutputRefs b)
    ∧ allOutputsEmitted (OutputToInputMap b) idx (pendingSet b1 idx) = false
    ∧ storeImpl Path Bytes idx kind (mkMachine b w) = (inr (), mkMachine b1 w1)
  ∨ (next_outcome w).1 = true ∧ idx < length (OutputRefs b)
    ∧ allOutputsEmitted (OutputToInputMap b) idx (pendingSet b1 idx) = true
    ∧ storeImpl Path Bytes idx kind (mkMachine b w)
      = registerResult (Action b) (BaseKey b) idx (pendingSet b1 idx)
          (mkMachine b1 w1).
Proof.
  simpl. destruct (next_outcome w).1 eqn:Hok.
  2:{ left. split; [done|]. by apply storeImpl_store_fails. }
  right. destruct (decide (idx < length (OutputRefs b))) as [Hidx|Hidx].
  2:{ left. split; [done|]. split; [lia|].
      apply storeImpl_out_of_range; [done|]. apply lookup_ge_None_2. lia. }
  right. rewrite storeImpl_stored by done.
  set (b1 := inserted b idx kind (Blob Bytes)).
  assert (OutputRefs b1 !! idx = Some (pendingSet b1 idx)) as Hlook.
  { unfold pendingSet. subst b1. by rewrite lookup_inserted. }
  assert (pendingSet b1 idx ≠ []) as Hne.
  { subst b1. rewrite pendingSet_inserted by done. apply dm_insert_nonempty. }
  destruct (allOutputsEmitted (OutputToInputMap b) idx (pendingSet b1 idx))
    eqn:Hall; [right|left]; (split; [done|]); (split; [done|]);
    (split; [done|]).
  - exact (finalize_complete b1 _ idx _ Hlook Hne Hall).
  - exact (finalize_incomplete b1 _ idx _ Hlook Hne Hall).
Qed.

Lemma length_inserted b idx kind ref :
  length (OutputRefs (inserted b idx kind ref)) = length (OutputRefs b).
Proof. unfold inserted. simpl. apply length_insert. Qed.

(** X3. A store changes nothing of the backend but the pending set of its
    input: the base key, the plan, the action, the route table and the
    number of pending sets are as before, and so is the pending set of
    every other input. *)
Theorem storeImpl_changes_one_pending_set Path Bytes idx kind s :
  let b' := this (storeImpl Path Bytes idx kind s).2 in
  BaseKey b' = BaseKey (this s)
  ∧ InputsAndOutputs b' = InputsAndOutputs (this s)
  ∧ Action b' = Action (this s)
  ∧ OutputToInputMap b' = OutputToInputMap (this s)
  ∧ length (OutputRefs b') = length (OutputRefs (this s))
  ∧ ∀ j, j ≠ idx → pendingSet b' j = pendingSet (this s) j.
Proof.
  simpl.
  destruct (storeImpl_step Path Bytes idx kind s) as [[->|[Hidx ->]] _];
    [done|].
  repeat split; try done.
  - apply length_inserted.
  - intros j Hj. by apply pendingSet_inserted_ne.
Qed.

Lemma dm_find_app_l (m m' : list (ID * ObjectRef)) k v :
  dm_find m k = Some v → dm_find (m ++ m') k = Some v.
Proof.
  unfold dm_find. induction m as [|e m IH]; simpl; [done|].
  by destruct (e.1 =? k)%N.
Qed.

Lemma dm_find_insert_kept (m : list (ID * ObjectRef)) k v k' v' :
  dm_find m k = Some v → dm_find (dm_insert m k' v') k = Some v.
Proof.
  intros Hf. unfold dm_insert. destruct (dm_count m k'); [done|].
  by apply dm_find_app_l.
Qed.

Lemma storeImpl_keeps_entry Path Bytes idx kind s j k v :
  dm_find (pendingSet (this s) j) k = Some v →
  dm_find (pendingSet (this (storeImpl Path Bytes idx kind s).2) j) k = Some v.
Proof.
  intros Hf.
  destruct (storeImpl_step Path Bytes idx kind s) as [[->|[Hidx ->]] _];
    [done|].
  destruct (decide (idx = j)) as [->|Hne].
  - rewrite pendingSet_inserted by done. by apply dm_find_insert_kept.
  - by rewrite pendingSet_inserted_ne.
Qed.

(** X4. No run of stores removes an entry of a pending set or changes its
    reference: a kind that is pending for an input stays pending for it,
    with the reference it has. *)
Theorem pending_entries_are_kept reqs : ∀ s j k v,
  dm_find (pendingSet (this s) j) k = Some v →
  dm_find (pendingSet (this (storeAll reqs s).2) j) k = Some v.
Proof.
  induction reqs as [|q rest IH]; intros s j k v Hf; [done|].
  rewrite storeAll_cons.
  pose proof (storeImpl_keeps_entry "" (reqBytes q) (reqInput q) (reqKind q)
                s j k v Hf) as Hstep.
  destruct (storeImpl _ _ _ _ s).1; simpl; [done|]. by apply IH.
Qed.

Lemma dm_insert_NoDup (m : list (ID * ObjectRef)) k v :
  NoDup m.*1 → NoDup (dm_insert m k v).*1.
Proof.
  intros Hnd. unfold dm_insert. destruct (dm_count m k) eqn:E; [done|].
  rewrite fmap_app. apply NoDup_app. split; [done|]. split.
  - intros k' Hin Hin'. simpl in Hin'. apply list_elem_of_singleton in Hin'.
    subst. by apply dm_count_false in E.
  - simpl. apply NoDup_singleton.
Qed.

Lemma storeImpl_NoDup Path Bytes idx kind s :
  Forall (λ m : list (ID * ObjectRef), NoDup m.*1) (OutputRefs (this s)) →
  Forall (λ m : list (ID * ObjectRef), NoDup m.*1)
    (OutputRefs (this (storeImpl Path Bytes idx kind s).2)).
Proof.
  intros Hall.
  destruct (storeImpl_step Path Bytes idx kind s) as [[->|[Hidx ->]] _];
    [done|].
  unfold inserted. simpl. apply Forall_insert; [done|].
  apply dm_insert_NoDup. unfold pendingSet.
  destruct (OutputRefs (this s) !! idx) as [m|] eqn:E; simpl.
  - exact (Forall_lookup_1 _ _ _ _ Hall E).
  - constructor.
Qed.

Lemma storeAll_NoDup reqs : ∀ s,
  Forall (λ m : list (ID * ObjectRef), NoDup m.*1) (OutputRefs (this s)) →
  Forall (λ m : list (ID * ObjectRef), NoDup m.*1)
    (OutputRefs (this (storeAll reqs s).2)).
Proof.
  induction reqs as [|q rest IH]; intros s Hall; [done|].
  rewrite storeAll_cons.
  pose proof (storeImpl_NoDup "" (reqBytes q) (reqInput q) (reqKind q) s Hall).
  destruct (storeImpl _ _ _ _ s).1; simpl; [done|]. by apply IH.
Qed.

Lemma storeAll_length reqs : ∀ s,
  length (OutputRefs (this (storeAll reqs s).2))
  = length (OutputRefs (this s)).
Proof.
  induction reqs as [|q rest IH]; intros s; [done|].
  rewrite storeAll_cons.
  assert (length (OutputRefs (this (storeImpl "" (reqBytes q) (reqInput q)
                                      (reqKind q) s).2))
          = length (OutputRefs (this s))) as Hstep.
  { destruct (storeImpl_step "" (reqBytes q) (reqInput q) (reqKind q) s)
      as [[->|[_ ->]] _]; [done|apply length_inserted]. }
  destruct (storeImpl _ _ _ _ s).1; simpl; [done|]. by rewrite IH.
Qed.

(** X5. In every state that a run of stores reaches from a fresh backend,
    there is one pending set per input of the plan and the kinds of each
    pending set are pairwise distinct. *)
Theorem reachable_pending_sets_are_maps Key IO Act w reqs :
  let b := this (storeAll reqs (mkMachine (newImplementation Key IO Act) w)).2 in
  length (OutputRefs b) = length (getAllInputs IO)
  ∧ Forall (λ m : list (ID * ObjectRef), NoDup m.*1) (OutputRefs b).
Proof.
  simpl. split.
  - rewrite storeAll_length. unfold newImplementation, initBackend. simpl.
    apply length_replicate.
  - apply storeAll_NoDup.
    unfold newImplementation, initBackend. simpl.
    apply Forall_replicate. constructor.
Qed.

Lemma storeImpl_logs_grow Path Bytes idx kind s :
  cas_objects (services s)
    `prefix_of` cas_objects (services (storeImpl Path Bytes idx kind s).2)
  ∧ cache_entries (services s)
    `prefix_of` cache_entries (services (storeImpl Path Bytes idx kind s).2).
Proof.
  split.
  - destruct s as [b w]. simpl.
    pose proof (next_outcome_logs w) as [Hcas _].
    destruct (storeImpl_cases Path Bytes idx kind b w)
      as [[_ ->]|[(_ & _ & ->)|[(_ & _ & _ & ->)|(_ & _ & _ & ->)]]]; simpl.
    + by rewrite Hcas.
    + rewrite Hcas. by apply prefix_app_r.
    + rewrite Hcas. by apply prefix_app_r.
    + etrans; [|apply registerResult_cas]. simpl. rewrite Hcas.
      by apply prefix_app_r.
  - destruct (storeImpl_step Path Bytes idx kind s) as [_ [->|[[rec ->] _]]];
      [done|by apply prefix_app_r].
Qed.

(** X6. The backend only ever appends to the two services: after any run of
    stores, the objects that the content store held and the entries that
    the action cache held are still there, in the same order, at the head
    of the two logs. *)
Theorem services_only_grow reqs : ∀ s,
  cas_objects (services s)
    `prefix_of` cas_objects (services (storeAll reqs s).2)
  ∧ cache_entries (services s)
    `prefix_of` cache_entries (services (storeAll reqs s).2).
Proof.
  induction reqs as [|q rest IH]; intros s; [done|].
  rewrite storeAll_cons.
  pose proof (storeImpl_logs_grow "" (reqBytes q) (reqInput q) (reqKind q) s)
    as [Hcas Hcache].
  destruct (storeImpl _ _ _ _ s).1; simpl; [done|].
  destruct (IH (storeImpl "" (reqBytes q) (reqInput q) (reqKind q) s).2)
    as [Hcas' Hcache'].
  split; etrans; done.
Qed.

(** X7. A store that returns an error, whichever it is, has put nothing in
    the action cache: the put is the last step, and no step before it
    writes an entry. *)
Theorem failed_store_writes_no_cache_entry Path Bytes idx kind s e :
  (storeImpl Path Bytes idx kind s).1 = inl e →
  cache_entries (services (storeImpl Path Bytes idx kind s).2)
  = cache_entries (services s).
Proof.
  destruct s as [b w]. simpl.
  pose proof (next_outcome_logs w) as [_ Hcache].
  destruct (storeImpl_cases Path Bytes idx kind b w)
    as [[_ ->]|[(_ & _ & ->)|[(_ & _ & _ & ->)|(_ & _ & _ & ->)]]]; simpl;
    try done.
  set (b1 := inserted b idx kind (Blob Bytes)).
  set (w1 := stored (Blob Bytes) (next_outcome w).2).
  destruct (registerResult_outcome (Action b) (BaseKey b) idx
              (pendingSet b1 idx) (mkMachine b1 w1))
    as (_ & _ & [[_ ->]|[(rec & _ & _ & ->)|(rec & _ & Hok & _)]]);
    simpl; try done.
  intros Herr. rewrite Hok in Herr. done.
Qed.

(** X8. The only entry that a store can add to the action cache is the one
    from the key of its input, made of the base key of the backend, to the
    record encoded from the pending set of that input as the store leaves
    it; the store then returned success, and the record and the key are in
    the content store. *)
Theorem store_adds_only_the_input_record Path Bytes idx kind s :
  let r := storeImpl Path Bytes idx kind s in
  cache_entries (services r.2) = cache_entries (services s)
  ∨ ∃ rec,
      encodeResult (Action (this s)) (pendingSet (this r.2) idx) = Some rec
      ∧ r.1 = inr ()
      ∧ cache_entries (services r.2)
        = cache_entries (services s)
          ++ [(CacheKey (BaseKey (this s)) idx, rec)]
      ∧ rec ∈ cas_objects (services r.2)
      ∧ CacheKey (BaseKey (this s)) idx ∈ cas_objects (services r.2).
Proof.
  destruct s as [b w]. simpl.
  pose proof (next_outcome_logs w) as [_ Hcache].
  destruct (storeImpl_cases Path Bytes idx kind b w)
    as [[_ ->]|[(_ & _ & ->)|[(_ & _ & _ & ->)|(_ & _ & _ & ->)]]]; simpl;
    try (by left).
  set (b1 := inserted b idx kind (Blob Bytes)).
  set (w1 := stored (Blob Bytes) (next_outcome w).2).
  destruct (registerResult_outcome (Action b) (BaseKey b) idx
              (pendingSet b1 idx) (mkMachine b1 w1))
    as (Hthis & _ & [[_ ->]|[(rec & _ & _ & ->)|(rec & Henc & Hok & Hcas & ->)]]);
    simpl; try (by left).
  right. exists rec. simpl in Hthis. rewrite Hthis.
  split; [done|]. split; [done|]. split; [by rewrite Hcache|].
  rewrite Hcas. split; apply elem_of_app; right; [left|right; left].
Qed.

(** X9. Once the content store took the bytes, the artifact is pending
    whatever happens next: a store of a kind that was not pending for an
    input of the plan leaves the pending set with that entry added, and
    the bytes in the content store, even when encoding or registering the
    result then fails. *)
Theorem stored_artifact_is_pending Path Bytes idx kind s :
  (next_outcome (services s)).1 = true →
  idx < length (OutputRefs (this s)) →
  dm_count (pendingSet (this s) idx) kind = false →
  pendingSet (this (storeImpl Path Bytes idx kind s).2) idx
  = pendingSet (this s) idx ++ [(kind, Blob Bytes)]
  ∧ Blob Bytes ∈ cas_objects (services (storeImpl Path Bytes idx kind s).2).
Proof.
  destruct s as [b w]. simpl. intros Hok Hidx Hfresh.
  rewrite storeImpl_stored by done. rewrite finalize_this. simpl. split.
  - rewrite pendingSet_inserted by done. by apply dm_insert_absent.
  - eapply elem_of_prefix; [|apply finalize_cas]. simpl.
    apply elem_of_app. right. left.
Qed.

Lemma clangOutputs_None_inv (outs : list (ID * ObjectRef)) :
  clangOutputs outs = None → ∃ k, k ∈ outs.*1 ∧ ¬ inClangSchema k.
Proof.
  unfold inClangSchema.
  induction outs as [|[k v] outs IH]; simpl; [done|].
  destruct (N.eqb_spec k TY_ClangModuleFile) as [->|Hc].
  { destruct (clangOutputs outs); [done|]. intros _.
    destruct IH as (k' & Hin & Hk'); [done|]. exists k'. split; [by right|done]. }
  destruct (N.eqb_spec k TY_CachedDiagnostics) as [->|Hd].
  { destruct (clangOutputs outs); [done|]. intros _.
    destruct IH as (k' & Hin & Hk'); [done|]. exists k'. split; [by right|done]. }
  destruct (N.eqb_spec k TY_Dependencies) as [->|He].
  { destruct (clangOutputs outs); [done|]. intros _.
    destruct IH as (k' & Hin & Hk'); [done|]. exists k'. split; [by right|done]. }
  intros _. exists k. split; [left|]. intros [?|[?|?]]; done.
Qed.

(** X10. [EncodeError] has one cause: a store ends with it only on a
    backend for [EmitPCM] and only when the pending set of its input holds
    a kind outside the clang schema. *)
Theorem encode_error_only_from_clang_schema Path Bytes idx kind s :
  (storeImpl Path Bytes idx kind s).1 = inl EncodeError →
  Action (this s) = EmitPCM
  ∧ ∃ k, dm_count (pendingSet (this (storeImpl Path Bytes idx kind s).2) idx) k
         = true
         ∧ ¬ inClangSchema k.
Proof.
  destruct s as [b w]. simpl.
  destruct (storeImpl_cases Path Bytes idx kind b w)
    as [[_ ->]|[(_ & _ & ->)|[(_ & _ & _ & ->)|(_ & _ & _ & ->)]]]; simpl;
    try done.
  set (b1 := inserted b idx kind (Blob Bytes)).
  set (w1 := stored (Blob Bytes) (next_outcome w).2).
  destruct (registerResult_outcome (Action b) (BaseKey b) idx
              (pendingSet b1 idx) (mkMachine b1 w1))
    as (Hthis & _ & [[Henc ->]|[(rec & _ & [Hr|Hr] & _)|(rec & _ & Hr & _)]]);
    simpl in *; try (rewrite Hr; done).
  intros _. unfold encodeResult in Henc.
  destruct (Action b) eqn:Hact; simpl in Henc; [|done]. split; [done|].
  destruct (clangOutputs (llvm_sort (pendingSet b1 idx))) eqn:Hclang; [done|].
  apply clangOutputs_None_inv in Hclang as (k & Hin & Hk).
  exists k. split; [|done]. apply dm_count_true. by rewrite <- llvm_sort_perm.
Qed.

Lemma storeAll_config reqs : ∀ s,
  BaseKey (this (storeAll reqs s).2) = BaseKey (this s)
  ∧ InputsAndOutputs (this (storeAll reqs s).2) = InputsAndOutputs (this s)
  ∧ Action (this (storeAll reqs s).2) = Action (this s).
Proof.
  induction reqs as [|q rest IH]; intros s; [done|].
  rewrite storeAll_cons.
  assert (BaseKey (this (storeImpl "" (reqBytes q) (reqInput q)
                           (reqKind q) s).2) = BaseKey (this s)
          ∧ InputsAndOutputs (this (storeImpl "" (reqBytes q) (reqInput q)
                                      (reqKind q) s).2)
            = InputsAndOutputs (this s)
          ∧ Action (this (storeImpl "" (reqBytes q) (reqInput q)
                            (reqKind q) s).2) = Action (this s))
    as (HK & HIO & HA).
  { by destruct (storeImpl_step "" (reqBytes q) (reqInput q) (reqKind q) s)
      as [[->|[_ ->]] _]. }
  destruct (storeImpl _ _ _ _ s).1; simpl; [done|].
  destruct (IH (storeImpl "" (reqBytes q) (reqInput q) (reqKind q) s).2)
    as (-> & -> & ->). done.
Qed.

(** X11. Cloning undoes the stores: whatever run of stores a backend went
    through since it was constructed, its clone is the backend as the
    constructor built it, with the same route table and nothing pending. *)
Theorem clone_of_reachable_is_fresh Key IO Act w reqs :
  cloneImpl (this (storeAll reqs (mkMachine (newImplementation Key IO Act) w)).2)
  = newImplementation Key IO Act.
Proof.
  unfold cloneImpl.
  destruct (storeAll_config reqs (mkMachine (newImplementation Key IO Act) w))
    as (-> & -> & ->).
  unfold newImplementation, initBackend. done.
Qed.

(** X12. An input for which the route table declares no kind is complete
    as soon as anything is stored for it: on services that do not fail and
    outside module emission, the store registers a record of the whole
    pending set at once. *)
Theorem undeclared_input_registers_at_once Path Bytes idx kind b w tag :
  outcomes w = [] →
  idx < length (OutputRefs b) →
  (∀ p k, OutputToInputMap b !! p ≠ Some (idx, k)) →
  Action b = OtherAction tag →
  (storeImpl Path Bytes idx kind (mkMachine b w)).1 = inr ()
  ∧ cache_entries (services (storeImpl Path Bytes idx kind (mkMachine b w)).2)
    = cache_entries w
      ++ [(CacheKey (BaseKey b) idx,
           SwiftResult
             (llvm_sort (dm_insert (pendingSet b idx) kind (Blob Bytes))))].
Proof.
  intros Hq Hidx Hnone Hact.
  apply store_on_complete_input_puts; try done.
  - apply allOutputsEmitted_true. intros p k Hp. by apply Hnone in Hp.
  - unfold encodeResult. by rewrite Hact.
Qed.

(** X13. A store for an input index that the backend does not have never
    succeeds and touches neither the pending sets nor the action cache;
    but the bytes are stored before the index is checked, so unless the
    content store itself fails they are left in the store. *)
Theorem store_out_of_range_leaves_bytes Path Bytes idx kind s :
  (length (OutputRefs (this s)) ≤ idx)%nat →
  let r := storeImpl Path Bytes idx kind s in
  this r.2 = this s
  ∧ cache_entries (services r.2) = cache_entries (services s)
  ∧ (r.1 = inl StoreError
     ∧ cas_objects (services r.2) = cas_objects (services s)
     ∨ r.1 = inl (AssertionFailure "idx < size()")
       ∧ cas_objects (services r.2) = cas_objects (services s) ++ [Blob Bytes]).
Proof.
  destruct s as [b w]. simpl. intros Hidx.
  pose proof (next_outcome_logs w) as [Hcas Hcache].
  destruct (storeImpl_cases Path Bytes idx kind b w)
    as [[_ ->]|[(_ & _ & ->)|[(_ & ? & _)|(_ & ? & _)]]]; simpl; try lia.
  - split; [done|]. split; [done|]. by left.
  - split; [done|]. split; [done|]. right. by rewrite Hcas.
Qed.

(** X14. Outside module emission the record always exists, and for a
    pending set with pairwise distinct kinds it lists exactly the pending
    entries, in strictly increasing order of kind. *)
Theorem general_record_is_sorted tag (outs : list (ID * ObjectRef)) :
  NoDup outs.*1 →
  ∃ l, encodeResult (OtherAction tag) outs = Some (SwiftResult l)
       ∧ l ≡ₚ outs
       ∧ StronglySorted kind_lt l.
Proof.
  intros Hnd. exists (llvm_sort outs). split; [done|].
  split; [apply llvm_sort_perm | by apply llvm_sort_sorted].
Qed.

Lemma clangOutputs_refs (outs : list (ID * ObjectRef)) l :
  clangOutputs outs = Some l → l.*2 = outs.*2.
Proof.
  revert l. induction outs as [|[k v] outs IH]; intros l.
  { simpl. by intros [= <-]. }
  rewrite fmap_cons. simpl clangOutputs.
  destruct (clangOutputs outs) as [l'|]; cbn [fmap option_fmap option_map].
  - specialize (IH l' eq_refl). rewrite <- IH.
    repeat case_match; intros [= <-]; by rewrite fmap_cons.
  - by repeat case_match.
Qed.

(** X15. Under module emission the record exists exactly when every
    pending kind is the clang module file, the cached diagnostics or the
    dependency list; it then holds the references of the pending entries
    in the order of the sorted kinds. *)
Theorem clang_record_iff_in_schema (outs : list (ID * ObjectRef)) :
  (is_Some (encodeResult EmitPCM outs) ↔ ∀ k, k ∈ outs.*1 → inClangSchema k)
  ∧ ∀ rec, encodeResult EmitPCM outs = Some rec →
      ∃ l, rec = ClangResult l ∧ l.*2 = (llvm_sort outs).*2.
Proof.
  unfold encodeResult. simpl. split.
  - split.
    + intros [rec Hrec] k Hk.
      destruct (clangOutputs (llvm_sort outs)) as [l|] eqn:Hclang; [|done].
      destruct (decide (k = TY_ClangModuleFile)) as [?|Hc]; [by left|].
      destruct (decide (k = TY_CachedDiagnostics)) as [?|Hd]; [by right; left|].
      destruct (decide (k = TY_Dependencies)) as [?|He]; [by right; right|].
      rewrite (clangOutputs_out_of_schema _ k) in Hclang; [done| |].
      * by rewrite llvm_sort_perm.
      * intros [?|[?|?]]; done.
    + intros Hall.
      destruct (clangOutputs_in_schema (llvm_sort outs)) as [l ->];
        [|by eexists].
      intros k Hk. apply Hall. by rewrite <- llvm_sort_perm.
  - intros rec Hrec.
    destruct (clangOutputs (llvm_sort outs)) as [l|] eqn:Hclang; [|done].
    injection Hrec as <-. exists l. split; [done|].
    by apply clangOutputs_refs.
Qed.

End Stores.

Section OutputFiles.

Context `{FileTypes}.

Lemma foldl_write p b i k ds :
  foldl write (SwiftCASOutputFile p b i k) ds
  = SwiftCASOutputFile p (foldl String.append b ds) i k.
Proof. revert b. induction ds as [|d ds IH]; intros b; simpl; [done|apply IH]. Qed.

(** X16. Keeping an output file stores what was written to it: for a path
    whose route has a kind that is not produced from diagnostics, creating
    the file, writing pieces of data to it and keeping it is the store of
    the concatenation of the pieces, for the input and the kind of the
    route. *)
Theorem kept_file_stores_written_bytes path idx kind ds s :
  OutputToInputMap (this s) !! path = Some (idx, kind) →
  isProducedFromDiagnostics kind = false →
  (let* f := createFileImpl path in keep (foldl write f ds)) s
  = storeImpl path (foldl String.append "" ds) idx kind s.
Proof.
  intros Hroute Hdiag. unfold bind at 1.
  unfold createFileImpl, bind, get_this, ret. simpl.
  rewrite Hroute, Hdiag. by rewrite foldl_write.
Qed.

End OutputFiles.

(** * The further properties on the sample plans *)

Lemma table_routes_are_planned_witness :
  (∃ Input, getAllInputs samplePlan !! 0 = Some Input
     ∧ ("a.d" = outputFilename Input ∧ "a.d" ≠ ""
        ∧ 5%N = getPrincipalOutputType samplePlan
        ∨ ("a.d", 5%N) ∈ SupplementaryOutputs Input
          ∧ isProducedFromDiagnostics (FileTypes := sampleTypes) 5 = false))
  ∨ ("a.d" = "<cached-diagnostics>"
     ∧ 0 = getIndexOfFirstOutputProducingInput samplePlan
     ∧ 5%N = TY_CachedDiagnostics (FileTypes := sampleTypes)).
Proof.
  apply (table_routes_are_planned (H := sampleTypes) (Foreign 1) samplePlan
           (OtherAction 0) "a.d" 0 5).
  by_computation.
Defined.

Lemma pending_entries_are_kept_witness :
  dm_find
    (pendingSet
       (this (storeAll (H := sampleTypes)
                [mkStore 0 10 "BB"; mkStore 0 5 "DD"]
                (storeImpl (H := sampleTypes) "a.o" "AA" 0 10 sampleMachine).2).2)
       0) 10
  = Some (Blob "AA").
Proof.
  apply (pending_entries_are_kept (H := sampleTypes)
           [mkStore 0 10 "BB"; mkStore 0 5 "DD"]
           (storeImpl (H := sampleTypes) "a.o" "AA" 0 10 sampleMachine).2
           0 10 (Blob "AA")).
  by_computation.
Defined.

Lemma failed_store_writes_no_cache_entry_witness :
  let s := mkMachine sampleBackend putFailsWorld in
  cache_entries (services (storeImpl (H := sampleTypes) "b.o" "BB" 1 10 s).2)
  = cache_entries (services s).
Proof.
  apply (failed_store_writes_no_cache_entry (H := sampleTypes) "b.o" "BB" 1 10
           (mkMachine sampleBackend putFailsWorld) CacheWriteError).
  by_computation.
Defined.

Lemma stored_artifact_is_pending_witness :
  let s := mkMachine sampleBackend putFailsWorld in
  pendingSet (this (storeImpl (H := sampleTypes) "b.o" "BB" 1 10 s).2) 1
  = pendingSet (this s) 1 ++ [(10%N, Blob "BB")]
  ∧ Blob "BB"
    ∈ cas_objects (services (storeImpl (H := sampleTypes) "b.o" "BB" 1 10 s).2).
Proof.
  apply (stored_artifact_is_pending (H := sampleTypes) "b.o" "BB" 1 10
           (mkMachine sampleBackend putFailsWorld)); by_computation.
Defined.

Lemma encode_error_only_from_clang_schema_witness :
  let s := (storeAll (H := sampleTypes)
              [mkStore 0 30 "PCM"; mkStore 0 40 "DIAG"]
              (mkMachine pcmBackend quietWorld)).2 in
  Action (this s) = EmitPCM
  ∧ ∃ k, dm_count
           (pendingSet (this (storeImpl (H := sampleTypes) "m.x" "X" 0 7 s).2) 0)
           k = true
         ∧ ¬ inClangSchema (H := sampleTypes) k.
Proof.
  apply (encode_error_only_from_clang_schema (H := sampleTypes) "m.x" "X" 0 7
           (storeAll (H := sampleTypes)
              [mkStore 0 30 "PCM"; mkStore 0 40 "DIAG"]
              (mkMachine pcmBackend quietWorld)).2).
  by_computation.
Defined.

Lemma undeclared_input_registers_at_once_witness :
  let r := storeImpl (H := sampleTypes) "" "note" 1 40
             (mkMachine silentBackend quietWorld) in
  r.1 = inr ()
  ∧ cache_entries (services r.2)
    = cache_entries quietWorld
      ++ [(CacheKey (BaseKey silentBackend) 1,
           SwiftResult
             (llvm_sort (dm_insert (pendingSet silentBackend 1) 40
                           (Blob "note"))))].
Proof.
  apply (undeclared_input_registers_at_once (H := sampleTypes) "" "note" 1 40
           silentBackend quietWorld 0).
  - reflexivity.
  - vm_compute. lia.
  - intros p k Hp.
    assert (Hplanned : (p, (1, k))
                       ∈ [("a.o", (0, 10%N));
                          ("<cached-diagnostics>", (0, 40%N))]).
    { replace [("a.o", (0, 10%N)); ("<cached-diagnostics>", (0, 40%N))]
        with (plannedRoutes (H := sampleTypes) silentPlan) by by_computation.
      apply firstRoute_Some.
      rewrite <- Hp. unfold silentBackend.
      by rewrite newImplementation_table, insertRoutes_lookup, lookup_empty. }
    apply elem_of_cons in Hplanned as [Heq|Hplanned]; [discriminate Heq|].
    apply elem_of_cons in Hplanned as [Heq|Hplanned]; [discriminate Heq|].
    by apply elem_of_nil in Hplanned.
  - reflexivity.
Defined.

Lemma store_out_of_range_leaves_bytes_witness :
  let r := storeImpl (H := sampleTypes) "c.o" "CC" 7 10 sampleMachine in
  this r.2 = this sampleMachine
  ∧ cache_entries (services r.2) = cache_entries (services sampleMachine)
  ∧ (r.1 = inl StoreError
     ∧ cas_objects (services r.2) = cas_objects (services sampleMachine)
     ∨ r.1 = inl (AssertionFailure "idx < size()")
       ∧ cas_objects (services r.2)
         = cas_objects (services sampleMachine) ++ [Blob "CC"]).
Proof.
  apply (store_out_of_range_leaves_bytes (H := sampleTypes) "c.o" "CC" 7 10
           sampleMachine).
  vm_compute. lia.
Defined.

Lemma general_record_is_sorted_witness :
  ∃ l, encodeResult (H := sampleTypes) (OtherAction 0)
         [(10%N, Blob "AA"); (5%N, Blob "DD")] = Some (SwiftResult l)
       ∧ l ≡ₚ [(10%N, Blob "AA"); (5%N, Blob "DD")]
       ∧ StronglySorted kind_lt l.
Proof.
  apply (general_record_is_sorted (H := sampleTypes) 0
           [(10%N, Blob "AA"); (5%N, Blob "DD")]).
  apply (bool_decide_unpack _). by_computation.
Defined.

Lemma kept_file_stores_written_bytes_witness :
  (let* f := createFileImpl (H := sampleTypes) "a.o" in
   keep (H := sampleTypes) (foldl write f ["A"; "B"; "C"])) sampleMachine
  = storeImpl (H := sampleTypes) "a.o" (foldl String.append "" ["A"; "B"; "C"])
      0 10 sampleMachine.
Proof.
  apply (kept_file_stores_written_bytes (H := sampleTypes) "a.o" 0 10
           ["A"; "B"; "C"] sampleMachine); by_computation.
Defined.

(** * Properties of the builders of extended information *)

(** ** Fields in the bits of an [unsigned] *)

Ltac bitblast :=
  apply Z.bits_inj'; intros n Hn;
  repeat match goal with
         | H : @eq Z _ _ |- _ =>
             apply (f_equal (λ z, Z.testbit z n)) in H; cbv beta in H
         end;
  unfold unsigned_not in *;
  repeat first [ rewrite Z.land_spec in * | rewrite Z.lor_spec in *
               | rewrite Z.lxor_spec in * | rewrite Z.testbit_0_l in * ];
  repeat match goal with
         | |- context [Z.testbit ?x n] =>
             let t := fresh "t" in
             set (t := Z.testbit x n) in *; clearbody t; destruct t
         | H : context [Z.testbit ?x n] |- _ =>
             let t := fresh "t" in
             set (t := Z.testbit x n) in *; clearbody t; destruct t
         end;
  simpl in *; congruence.

Lemma field_put_get bits M v :
  Z.land M (Z.ones 32) = M → Z.land v M = v →
  Z.land (Z.lor (Z.land bits (unsigned_not M)) v) M = v.
Proof. intros H1 H2. bitblast. Qed.

Lemma field_put_other bits M M' v :
  Z.land M M' = 0%Z → Z.land v M = v → Z.land M' (Z.ones 32) = M' →
  Z.land (Z.lor (Z.land bits (unsigned_not M)) v) M' = Z.land bits M'.
Proof. intros H1 H2 H3. bitblast. Qed.

Lemma field_put_apart bits M M' v :
  Z.land v M' = 0%Z → Z.land M M' = 0%Z → Z.land M' (Z.ones 32) = M' →
  Z.land (Z.lor (Z.land bits (unsigned_not M)) v) M' = Z.land bits M'.
Proof. intros H1 H2 H3. bitblast. Qed.

Lemma field_put_masked bits M v :
  Z.land M (Z.ones 32) = M →
  Z.land (Z.lor (Z.land bits (unsigned_not M)) v) M = Z.land v M.
Proof. intros H1. bitblast. Qed.

Lemma flag_set_get bits M : Z.land (Z.lor bits M) M = M.
Proof. bitblast. Qed.

Lemma flag_set_other bits M M' :
  Z.land M M' = 0%Z → Z.land (Z.lor bits M) M' = Z.land bits M'.
Proof. intros H1. bitblast. Qed.

Lemma flag_clear_get bits M :
  Z.land M (Z.ones 32) = M → Z.land (Z.land bits (unsigned_not M)) M = 0%Z.
Proof. intros H1. bitblast. Qed.

Lemma flag_clear_other bits M M' :
  Z.land M M' = 0%Z → Z.land M' (Z.ones 32) = M' →
  Z.land (Z.land bits (unsigned_not M)) M' = Z.land bits M'.
Proof. intros H1 H2. bitblast. Qed.

Lemma land_apart x M M' : Z.land M M' = 0%Z → Z.land (Z.land x M) M' = 0%Z.
Proof. intros H1. bitblast. Qed.

Lemma land_twice x M : Z.land (Z.land x M) M = Z.land x M.
Proof. bitblast. Qed.

Lemma shifted_field d off :
  (0 ≤ off)%Z →
  Z.shiftr (Z.land (Z.shiftl d off) (Z.shiftl 3 off)) off = (d mod 4)%Z.
Proof.
  intros Hoff. rewrite <- Z.shiftl_land.
  rewrite Z.shiftr_shiftl_l by lia. rewrite Z.sub_diag, Z.shiftl_0_r.
  change 3%Z with (Z.ones 2). by rewrite Z.land_ones.
Qed.

Lemma shifted_below d off M :
  (0 ≤ off)%Z → Z.land M (Z.ones off) = M → Z.land (Z.shiftl d off) M = 0%Z.
Proof.
  intros Hoff HM. rewrite <- HM, (Z.land_comm M), Z.land_assoc.
  rewrite (Z.land_ones _ off) by done.
  rewrite Z.shiftl_mul_pow2 by done.
  rewrite Z.mod_mul by (apply Z.pow_nonzero; lia). apply Z.land_0_l.
Qed.

(** Changes of two fields that lie apart, in either order. *)
Lemma field_put_commute bits M M' v v' :
  Z.land M M' = 0%Z → Z.land v M' = 0%Z → Z.land v' M = 0%Z →
  Z.land v (Z.ones 32) = v → Z.land v' (Z.ones 32) = v' →
  Z.lor (Z.land (Z.lor (Z.land bits (unsigned_not M)) v) (unsigned_not M')) v'
  = Z.lor (Z.land (Z.lor (Z.land bits (unsigned_not M')) v') (unsigned_not M)) v.
Proof. intros H1 H2 H3 H4 H5. bitblast. Qed.

Lemma field_put_flag_commute bits M v F (flag : bool) :
  Z.land F M = 0%Z → Z.land v F = 0%Z →
  Z.land F (Z.ones 32) = F → Z.land v (Z.ones 32) = v →
  (if flag then Z.lor (Z.lor (Z.land bits (unsigned_not M)) v) F
   else Z.land (Z.lor (Z.land bits (unsigned_not M)) v) (unsigned_not F))
  = Z.lor (Z.land (if flag then Z.lor bits F
                   else Z.land bits (unsigned_not F)) (unsigned_not M)) v.
Proof. intros H1 H2 H3 H4. destruct flag; bitblast. Qed.

Lemma flag_flag_commute bits F F' (flag flag' : bool) :
  Z.land F F' = 0%Z →
  Z.land F (Z.ones 32) = F → Z.land F' (Z.ones 32) = F' →
  (if flag' then Z.lor (if flag then Z.lor bits F
                        else Z.land bits (unsigned_not F)) F'
   else Z.land (if flag then Z.lor bits F
                else Z.land bits (unsigned_not F)) (unsigned_not F'))
  = (if flag then Z.lor (if flag' then Z.lor bits F'
                         else Z.land bits (unsigned_not F')) F
     else Z.land (if flag' then Z.lor bits F'
                  else Z.land bits (unsigned_not F')) (unsigned_not F)).
Proof. intros H1 H2 H3. destruct flag, flag'; bitblast. Qed.

(** Two changes of one field. *)
Lemma field_put_twice bits M v v' :
  Z.land v' M = v' → Z.land M (Z.ones 32) = M →
  Z.lor (Z.land (Z.lor (Z.land bits (unsigned_not M)) v') (unsigned_not M)) v
  = Z.lor (Z.land bits (unsigned_not M)) v.
Proof. intros H1 H2. bitblast. Qed.

Lemma flag_twice bits F (flag flag' : bool) :
  Z.land bits (Z.ones 32) = bits → Z.land F (Z.ones 32) = F →
  (if flag then Z.lor (if flag' then Z.lor bits F
                       else Z.land bits (unsigned_not F)) F
   else Z.land (if flag' then Z.lor bits F
                else Z.land bits (unsigned_not F)) (unsigned_not F))
  = (if flag then Z.lor bits F else Z.land bits (unsigned_not F)).
Proof. intros H1 H2. destruct flag, flag'; bitblast. Qed.

(** ** [SILExtInfoBuilder] *)

Module SILExtInfoFacts.

Import SILExtInfoBuilder.

Lemma sil_builder_raw_in_mask rep :
  Z.land (SILFunctionTypeRepresentation.raw rep) RepresentationMask
  = SILFunctionTypeRepresentation.raw rep.
Proof. by destruct rep. Qed.

Lemma sil_builder_of_raw_raw rep :
  SILFunctionTypeRepresentation.of_raw (SILFunctionTypeRepresentation.raw rep)
  = Some rep.
Proof. by destruct rep. Qed.

(** A [uint8_t] kind shifted to its field keeps within 32 bits and clear of
    the lower fields. *)
Lemma sil_shifted_kind diffKind :
  (0 ≤ diffKind < 256)%Z →
  let D := Z.shiftl diffKind DifferentiabilityMaskOffset in
  Z.land D (Z.ones 32) = D
  ∧ Z.land D RepresentationMask = 0%Z
  ∧ Z.land D PseudogenericMask = 0%Z
  ∧ Z.land D NoEscapeMask = 0%Z.
Proof.
  intros Hd. simpl. split; [|by rewrite !shifted_below].
  rewrite Z.land_ones by lia. apply Z.mod_small.
  unfold DifferentiabilityMaskOffset. rewrite Z.shiftl_mul_pow2 by lia. lia.
Qed.

(** X17. The constructor of [SILExtInfoBuilder] stores each argument in its
    field: the getters return the representation, the two flags and the
    clang type that were given and the differentiability kind reduced
    modulo 4, and no bit is set at or above [NumMaskBits]. *)
Theorem sil_make_round_trip rep pseudo noEscape diffKind type :
  let b := make rep pseudo noEscape diffKind type in
  getRepresentation b = Some rep
  ∧ isPseudogeneric b = pseudo
  ∧ isNoEscape b = noEscape
  ∧ getDifferentiabilityKind b = (diffKind mod 4)%Z
  ∧ getClangTypeInfo b = type
  ∧ Z.shiftr (bits b) NumMaskBits = 0%Z.
Proof.
  simpl.
  unfold getRepresentation, isPseudogeneric, isNoEscape,
    getDifferentiabilityKind, make. simpl bits.
  set (A := Z.lor (Z.lor (SILFunctionTypeRepresentation.raw rep)
                     (if pseudo then PseudogenericMask else 0%Z))
              (if noEscape then NoEscapeMask else 0%Z)).
  set (D := Z.land (Z.shiftl diffKind DifferentiabilityMaskOffset)
              DifferentiabilityMask).
  repeat split.
  - rewrite Z.land_lor_distr_l. unfold D. rewrite land_apart by done.
    rewrite Z.lor_0_r. by destruct rep, pseudo, noEscape.
  - rewrite Z.land_lor_distr_l. unfold D. rewrite land_apart by done.
    rewrite Z.lor_0_r. by destruct rep, pseudo, noEscape.
  - rewrite Z.land_lor_distr_l. unfold D. rewrite land_apart by done.
    rewrite Z.lor_0_r. by destruct rep, pseudo, noEscape.
  - rewrite Z.land_lor_distr_l. unfold D. rewrite land_twice.
    replace (Z.land A DifferentiabilityMask) with 0%Z
      by (by destruct rep, pseudo, noEscape).
    rewrite Z.lor_0_l. by apply shifted_field.
  - rewrite Z.shiftr_lor. unfold D. rewrite Z.shiftr_land.
    replace (Z.shiftr A NumMaskBits) with 0%Z
      by (by destruct rep, pseudo, noEscape).
    change (Z.shiftr DifferentiabilityMask NumMaskBits) with 0%Z.
    by rewrite Z.land_0_r.
Qed.

(** X18. [withRepresentation] replaces the representation and nothing
    else: the new builder has the given representation and the flags, the
    differentiability kind and the clang type of the old one, whatever the
    bits of the old one are. *)
Theorem sil_withRepresentation_replaces_one_field b rep :
  let b' := withRepresentation b rep in
  getRepresentation b' = Some rep
  ∧ isPseudogeneric b' = isPseudogeneric b
  ∧ isNoEscape b' = isNoEscape b
  ∧ getDifferentiabilityKind b' = getDifferentiabilityKind b
  ∧ getClangTypeInfo b' = getClangTypeInfo b.
Proof.
  simpl.
  unfold getRepresentation, isPseudogeneric, isNoEscape,
    getDifferentiabilityKind, withRepresentation. simpl bits.
  pose proof (sil_builder_raw_in_mask rep) as Hraw.
  repeat split.
  - rewrite field_put_get by done. apply sil_builder_of_raw_raw.
  - by rewrite field_put_other.
  - by rewrite field_put_other.
  - by rewrite field_put_other.
Qed.

(** X19. [withIsPseudogeneric] and [withNoEscape] set or clear their own
    flag and leave the representation, the other flag, the
    differentiability kind and the clang type as they are. *)
Theorem sil_flags_replace_one_field b flag :
  (isPseudogeneric (withIsPseudogeneric b flag) = flag
   ∧ getRepresentation (withIsPseudogeneric b flag) = getRepresentation b
   ∧ isNoEscape (withIsPseudogeneric b flag) = isNoEscape b
   ∧ getDifferentiabilityKind (withIsPseudogeneric b flag)
     = getDifferentiabilityKind b
   ∧ getClangTypeInfo (withIsPseudogeneric b flag) = getClangTypeInfo b)
  ∧ (isNoEscape (withNoEscape b flag) = flag
     ∧ getRepresentation (withNoEscape b flag) = getRepresentation b
     ∧ isPseudogeneric (withNoEscape b flag) = isPseudogeneric b
     ∧ getDifferentiabilityKind (withNoEscape b flag)
       = getDifferentiabilityKind b
     ∧ getClangTypeInfo (withNoEscape b flag) = getClangTypeInfo b).
Proof.
  unfold getRepresentation, isPseudogeneric, isNoEscape,
    getDifferentiabilityKind, withIsPseudogeneric, withNoEscape.
  destruct flag; simpl bits; repeat split;
    rewrite ?flag_set_get, ?flag_clear_get, ?flag_set_other,
      ?flag_clear_other by done; done.
Qed.

(** X20. [withDifferentiabilityKind] leaves the representation, the flags
    and the clang type as they are, and the kind that is read back is the
    given one reduced modulo 4. *)
Theorem sil_withDifferentiabilityKind_reads_mod_4 b diffKind :
  let b' := withDifferentiabilityKind b diffKind in
  getDifferentiabilityKind b' = (diffKind mod 4)%Z
  ∧ getRepresentation b' = getRepresentation b
  ∧ isPseudogeneric b' = isPseudogeneric b
  ∧ isNoEscape b' = isNoEscape b
  ∧ getClangTypeInfo b' = getClangTypeInfo b.
Proof.
  simpl.
  unfold getRepresentation, isPseudogeneric, isNoEscape,
    getDifferentiabilityKind, withDifferentiabilityKind. simpl bits.
  repeat split.
  - rewrite field_put_masked by done. by apply shifted_field.
  - rewrite field_put_apart; [done| |done..]. by apply shifted_below.
  - rewrite field_put_apart; [done| |done..]. by apply shifted_below.
  - rewrite field_put_apart; [done| |done..]. by apply shifted_below.
Qed.

(** X21. Unlike the constructor, [withDifferentiabilityKind] does not mask
    the kind: on a builder with no bit at or above [NumMaskBits], the new
    builder keeps within [NumMaskBits] exactly when the kind is below 4. *)
Theorem sil_withDifferentiabilityKind_overflows b diffKind :
  Z.shiftr (bits b) NumMaskBits = 0%Z →
  (0 ≤ diffKind)%Z →
  Z.shiftr (bits (withDifferentiabilityKind b diffKind)) NumMaskBits = 0%Z
  ↔ (diffKind < 4)%Z.
Proof.
  intros Hfits Hpos. unfold withDifferentiabilityKind. simpl bits.
  rewrite Z.shiftr_lor, Z.shiftr_land, Hfits, Z.land_0_l, Z.lor_0_l.
  unfold DifferentiabilityMaskOffset, NumMaskBits.
  rewrite Z.shiftr_shiftl_r by lia. change (8 - 6)%Z with 2%Z.
  rewrite Z.shiftr_div_pow2 by lia. change (2 ^ 2)%Z with 4%Z.
  split.
  - intros Hdiv. apply Z.div_small_iff in Hdiv; lia.
  - intros Hlt. apply Z.div_small. lia.
Qed.

(** X22. Whether a function has a self parameter is whether it can be
    called indirectly through the runtime, and no representation has both
    a self parameter and a context. *)
Theorem sil_self_param_is_indirect_call b :
  hasSelfParam b = canBeCalledIndirectly <$> getRepresentation b
  ∧ ¬ (hasSelfParam b = Some true ∧ hasContext b = Some true).
Proof.
  unfold hasSelfParam, hasContext.
  destruct (getRepresentation b) as [[]|]; simpl; split; try done;
    by intros [? ?].
Qed.

(** X23. On a builder whose bits are those of an [unsigned] and with
    differentiability kinds that are [uint8_t] values, the four
    with-methods commute with one another when they change different
    fields. Of two changes of the same field the later one wins for the
    representation and for the two flags. For the differentiability kind
    it wins when the earlier kind is below 4; an earlier kind of 4 or more
    leaves bits above the field that the later change does not clear, so
    on a builder with no bit at or above [NumMaskBits] and a later kind
    below 4 the later change wins only when the earlier kind is below 4. *)
Theorem sil_with_methods_compose b rep rep' pseudo pseudo' noEscape noEscape'
    diffKind diffKind' :
  (0 ≤ bits b < 2 ^ 32)%Z →
  (0 ≤ diffKind < 256)%Z →
  (0 ≤ diffKind' < 256)%Z →
  withIsPseudogeneric (withRepresentation b rep) pseudo
  = withRepresentation (withIsPseudogeneric b pseudo) rep
  ∧ withNoEscape (withRepresentation b rep) noEscape
    = withRepresentation (withNoEscape b noEscape) rep
  ∧ withDifferentiabilityKind (withRepresentation b rep) diffKind
    = withRepresentation (withDifferentiabilityKind b diffKind) rep
  ∧ withNoEscape (withIsPseudogeneric b pseudo) noEscape
    = withIsPseudogeneric (withNoEscape b noEscape) pseudo
  ∧ withDifferentiabilityKind (withIsPseudogeneric b pseudo) diffKind
    = withIsPseudogeneric (withDifferentiabilityKind b diffKind) pseudo
  ∧ withDifferentiabilityKind (withNoEscape b noEscape) diffKind
    = withNoEscape (withDifferentiabilityKind b diffKind) noEscape
  ∧ withRepresentation (withRepresentation b rep') rep
    = withRepresentation b rep
  ∧ withIsPseudogeneric (withIsPseudogeneric b pseudo') pseudo
    = withIsPseudogeneric b pseudo
  ∧ withNoEscape (withNoEscape b noEscape') noEscape = withNoEscape b noEscape
  ∧ ((diffKind' < 4)%Z →
     withDifferentiabilityKind (withDifferentiabilityKind b diffKind') diffKind
     = withDifferentiabilityKind b diffKind)
  ∧ (Z.shiftr (bits b) NumMaskBits = 0%Z →
     (diffKind < 4)%Z →
     withDifferentiabilityKind (withDifferentiabilityKind b diffKind') diffKind
     = withDifferentiabilityKind b diffKind →
     (diffKind' < 4)%Z).
Proof.
  intros Hbits Hd Hd'.
  assert (Z.land (bits b) (Z.ones 32) = bits b) as Hb.
  { rewrite Z.land_ones by lia. apply Z.mod_small. lia. }
  pose proof (sil_builder_raw_in_mask rep) as Hrep.
  pose proof (sil_builder_raw_in_mask rep') as Hrep'.
  assert (∀ M, Z.land RepresentationMask M = 0%Z →
            Z.land (SILFunctionTypeRepresentation.raw rep) M = 0%Z) as Hrep0.
  { intros M HM. rewrite <- Hrep, <- Z.land_assoc, HM. apply Z.land_0_r. }
  assert (Z.land (SILFunctionTypeRepresentation.raw rep) (Z.ones 32)
          = SILFunctionTypeRepresentation.raw rep) as Hrep32
    by (by destruct rep).
  pose proof (sil_shifted_kind diffKind Hd) as (HD32 & HDR & HDP & HDN).
  unfold withNoEscape, withIsPseudogeneric, withRepresentation,
    withDifferentiabilityKind. simpl.
  split; [|split; [|split; [|split; [|split; [|split; [|split; [|split;
    [|split; [|split]]]]]]]]].
  - f_equal. by rewrite field_put_flag_commute by auto.
  - f_equal. by rewrite field_put_flag_commute by auto.
  - f_equal. by apply field_put_commute; auto.
  - f_equal. by apply flag_flag_commute.
  - f_equal. symmetry. by apply field_put_flag_commute.
  - f_equal. symmetry. by apply field_put_flag_commute.
  - f_equal. by apply field_put_twice.
  - f_equal. by apply flag_twice.
  - f_equal. by apply flag_twice.
  - intros Hlt. f_equal. apply field_put_twice; [|done].
    assert (diffKind' = 0 ∨ diffKind' = 1 ∨ diffKind' = 2
            ∨ diffKind' = 3)%Z as [->|[->|[->| ->]]] by lia; done.
  - intros Hfits Hlt Heq.
    apply (f_equal (λ x, Z.shiftr (bits x) NumMaskBits)) in Heq.
    revert Heq. simpl bits.
    repeat first [ rewrite Z.shiftr_lor | rewrite Z.shiftr_land ].
    rewrite Hfits, !Z.land_0_l, !Z.lor_0_l.
    unfold DifferentiabilityMaskOffset, NumMaskBits.
    rewrite !Z.shiftr_shiftl_r by lia. change (8 - 6)%Z with 2%Z.
    rewrite !Z.shiftr_div_pow2 by lia. change (2 ^ 2)%Z with 4%Z.
    change (unsigned_not DifferentiabilityMask `div` 2 ^ 8)%Z
      with (Z.ones 24).
    rewrite Z.land_ones by lia.
    rewrite (Z.mod_small (diffKind' `div` 4)%Z)
      by (split; [apply Z.div_pos; lia | apply Z.div_lt_upper_bound; lia]).
    rewrite (Z.div_small diffKind) by lia. rewrite Z.lor_0_r.
    intros Hdiv. apply Z.div_small_iff in Hdiv; lia.
Qed.

End SILExtInfoFacts.

(** ** [ASTExtInfoBuilder] *)

Module ASTExtInfoFacts.

Import ASTExtInfoBuilder.

Lemma ast_builder_raw_in_mask rep :
  Z.land (FunctionTypeRepresentation.raw rep) RepresentationMask
  = FunctionTypeRepresentation.raw rep.
Proof. by destruct rep. Qed.

Lemma ast_builder_sil_raw_in_mask rep :
  Z.land (SILFunctionTypeRepresentation.raw rep) RepresentationMask
  = SILFunctionTypeRepresentation.raw rep.
Proof. by destruct rep. Qed.

Lemma ast_construct_Some isFunctionType bits type b :
  construct isFunctionType bits type = Some b → b = mk bits type.
Proof.
  unfold construct. destruct type as [ty|]; [|by intros [= <-]].
  destruct (_ && _); [done|]. by intros [= <-].
Qed.

(** The bits that the constructor with no defaults hands to the private
    one. *)
Lemma ast_make_bits_representation rep (noEscape throws : bool) diffKind :
  Z.land
    (Z.lor
       (Z.lor
          (Z.lor (FunctionTypeRepresentation.raw rep)
             (if noEscape then NoEscapeMask else 0%Z))
          (if throws then ThrowsMask else 0%Z))
       (Z.land (Z.shiftl diffKind DifferentiabilityMaskOffset)
          DifferentiabilityMask))
    RepresentationMask
  = FunctionTypeRepresentation.raw rep.
Proof.
  rewrite Z.land_lor_distr_l, land_apart by done.
  rewrite Z.lor_0_r. by destruct rep, noEscape, throws.
Qed.

(** X24. The constructor of [ASTExtInfoBuilder] trips the assertion on the
    clang type in one case only: the representation is a C function
    pointer and a clang type is given that [assertIsFunctionType]
    rejects. *)
Theorem ast_make_fails_iff isFunctionType rep noEscape throws diffKind type :
  make isFunctionType rep noEscape throws diffKind type = None
  ↔ rep = FunctionTypeRepresentation.CFunctionPointer
    ∧ ∃ ty, type = Some ty ∧ isFunctionType ty = false.
Proof.
  unfold make, construct. destruct type as [ty|].
  2:{ split; [done|]. by intros [_ (ty & ? & _)]. }
  rewrite ast_make_bits_representation.
  destruct (isFunctionType ty) eqn:Hty; simpl.
  - rewrite andb_false_r. split; [done|].
    intros [_ (ty' & [= <-] & Hty')]. congruence.
  - rewrite andb_true_r. destruct rep; simpl; split; try done;
      try (by intros [? _]).
    intros _. split; [done|]. by exists ty.
Qed.

(** X25. When the constructor of [ASTExtInfoBuilder] returns a builder,
    its getters return the representation, the two flags and the clang
    type that were given and the differentiability kind reduced modulo 4;
    the builder is not async, and no bit is set at or above
    [NumMaskBits]. *)
Theorem ast_make_round_trip isFunctionType rep noEscape thrws diffKind type b :
  make isFunctionType rep noEscape thrws diffKind type = Some b →
  getRepresentation b = Some rep
  ∧ isNoEscape b = noEscape
  ∧ async b = false
  ∧ throws b = thrws
  ∧ getDifferentiabilityKind b = (diffKind mod 4)%Z
  ∧ getClangTypeInfo b = type
  ∧ Z.shiftr (bits b) NumMaskBits = 0%Z.
Proof.
  intros Hmake. apply ast_construct_Some in Hmake as ->.
  unfold getRepresentation, isNoEscape, async, throws,
    getDifferentiabilityKind. simpl bits.
  rewrite ast_make_bits_representation.
  set (A := Z.lor (Z.lor (FunctionTypeRepresentation.raw rep)
                     (if noEscape then NoEscapeMask else 0%Z))
              (if thrws then ThrowsMask else 0%Z)).
  set (D := Z.land (Z.shiftl diffKind DifferentiabilityMaskOffset)
              DifferentiabilityMask).
  repeat split.
  - by destruct rep.
  - rewrite Z.land_lor_distr_l. unfold D. rewrite land_apart by done.
    rewrite Z.lor_0_r. by destruct rep, noEscape, thrws.
  - rewrite Z.land_lor_distr_l. unfold D. rewrite land_apart by done.
    rewrite Z.lor_0_r. by destruct rep, noEscape, thrws.
  - rewrite Z.land_lor_distr_l. unfold D. rewrite land_apart by done.
    rewrite Z.lor_0_r. by destruct rep, noEscape, thrws.
  - rewrite Z.land_lor_distr_l. unfold D. rewrite land_twice.
    replace (Z.land A DifferentiabilityMask) with 0%Z
      by (by destruct rep, noEscape, thrws).
    rewrite Z.lor_0_l. by apply shifted_field.
  - rewrite Z.shiftr_lor. unfold D. rewrite Z.shiftr_land.
    replace (Z.shiftr A NumMaskBits) with 0%Z
      by (by destruct rep, noEscape, thrws).
    change (Z.shiftr DifferentiabilityMask NumMaskBits) with 0%Z.
    by rewrite Z.land_0_r.
Qed.

(** X26. In a chain [withNoEscape], [withAsync], [withThrows] that goes
    through, the last builder has the three flags that were given and the
    representation, the differentiability kind and the clang type of the
    first one. *)
Theorem ast_flag_chain isFunctionType b noEscape asyn thrws b1 b2 b3 :
  withNoEscape isFunctionType b noEscape = Some b1 →
  withAsync isFunctionType b1 asyn = Some b2 →
  withThrows isFunctionType b2 thrws = Some b3 →
  isNoEscape b3 = noEscape
  ∧ async b3 = asyn
  ∧ throws b3 = thrws
  ∧ getRepresentation b3 = getRepresentation b
  ∧ getDifferentiabilityKind b3 = getDifferentiabilityKind b
  ∧ getClangTypeInfo b3 = getClangTypeInfo b.
Proof.
  intros H1%ast_construct_Some H2%ast_construct_Some H3%ast_construct_Some.
  subst b3 b2 b1.
  unfold getRepresentation, isNoEscape, async, throws,
    getDifferentiabilityKind. simpl.
  destruct noEscape, asyn, thrws; repeat split;
    repeat first [ rewrite flag_set_get | rewrite flag_clear_get by done
                 | rewrite flag_set_other by done
                 | rewrite flag_clear_other by done ];
    done.
Qed.

(** X27. The assertion on the clang type looks at the representation and
    the clang type only: on a builder that passes it, changing a flag or
    the differentiability kind never trips it, and on a builder without a
    clang type no change trips it. *)
Theorem ast_flags_never_trip isFunctionType b flag diffKind rep :
  is_Some (construct isFunctionType (bits b) (clangTypeInfo b)) →
  is_Some (withNoEscape isFunctionType b flag)
  ∧ is_Some (withAsync isFunctionType b flag)
  ∧ is_Some (withThrows isFunctionType b flag)
  ∧ is_Some (withDifferentiabilityKind isFunctionType b diffKind)
  ∧ (clangTypeInfo b = None →
     is_Some (withRepresentation isFunctionType b rep)).
Proof.
  unfold withNoEscape, withAsync, withThrows, withDifferentiabilityKind,
    withRepresentation, construct.
  destruct (clangTypeInfo b) as [ty|]; [|by repeat split].
  intros Hok.
  assert (∀ bits', Z.land bits' RepresentationMask
                   = Z.land (bits b) RepresentationMask →
            is_Some (if (Z.land bits' RepresentationMask
                         =? FunctionTypeRepresentation.raw
                              FunctionTypeRepresentation.CFunctionPointer)%Z
                        && negb (isFunctionType ty)
                     then None else Some (mk bits' (Some ty)))) as Hsame.
  { intros bits' ->. destruct (_ && _); [by destruct Hok|done]. }
  repeat split; try done; try apply Hsame.
  - destruct flag; [by apply flag_set_other|by apply flag_clear_other].
  - destruct flag; [by apply flag_set_other|by apply flag_clear_other].
  - destruct flag; [by apply flag_set_other|by apply flag_clear_other].
  - apply field_put_apart; [|done..]. by apply shifted_below.
Qed.

(** X28. The representations that the AST and SIL share have the same
    value: after [withRepresentation] the builder reads back the given
    representation, and read as a SIL representation it is the one with
    the same value, which is none of the SIL-only ones. *)
Theorem ast_and_sil_representations_agree isFunctionType b rep b' :
  withRepresentation isFunctionType b rep = Some b' →
  getRepresentation b' = Some rep
  ∧ ∃ srep, getSILRepresentation b' = Some srep
            ∧ SILFunctionTypeRepresentation.raw srep
              = FunctionTypeRepresentation.raw rep
            ∧ (SILFunctionTypeRepresentation.raw srep
               < SILFunctionTypeRepresentation.FirstSIL)%Z.
Proof.
  intros ->%ast_construct_Some.
  unfold getRepresentation, getSILRepresentation. simpl bits.
  rewrite field_put_get by (done || apply ast_builder_raw_in_mask).
  split; [by destruct rep|].
  destruct rep; simpl; eexists; (split; [reflexivity|done]).
Qed.

(** X29. A SIL representation can be put in an AST builder and read back
    as a SIL representation; read as an AST representation it trips the
    assertion of [getRepresentation] exactly when it is one of the
    SIL-only representations. *)
Theorem ast_with_sil_representation isFunctionType b srep b' :
  withSILRepresentation isFunctionType b srep = Some b' →
  getSILRepresentation b' = Some srep
  ∧ (getRepresentation b' = None
     ↔ (SILFunctionTypeRepresentation.FirstSIL
        ≤ SILFunctionTypeRepresentation.raw srep)%Z).
Proof.
  intros ->%ast_construct_Some.
  unfold getRepresentation, getSILRepresentation. simpl bits.
  rewrite field_put_get by (done || apply ast_builder_sil_raw_in_mask).
  split; [by destruct srep|].
  destruct srep; simpl; split; try done; intros Hle; by vm_compute in Hle.
Qed.

End ASTExtInfoFacts.

(** ** The properties of the builders on the sample builders *)

Lemma sil_withDifferentiabilityKind_overflows_witness :
  Z.shiftr
    (SILExtInfoBuilder.bits
       (SILExtInfoBuilder.withDifferentiabilityKind sampleSILBuilder 2))
    SILExtInfoBuilder.NumMaskBits = 0%Z
  ↔ (2 < 4)%Z.
Proof.
  apply (SILExtInfoFacts.sil_withDifferentiabilityKind_overflows
           sampleSILBuilder 2); [reflexivity | lia].
Defined.

Lemma sil_with_methods_compose_witness :
  let b := sampleSILBuilder in
  SILExtInfoBuilder.withDifferentiabilityKind
    (SILExtInfoBuilder.withRepresentation b SILFunctionTypeRepresentation.Thick) 1
  = SILExtInfoBuilder.withRepresentation
      (SILExtInfoBuilder.withDifferentiabilityKind b 1) SILFunctionTypeRepresentation.Thick
  ∧ SILExtInfoBuilder.withDifferentiabilityKind
      (SILExtInfoBuilder.withNoEscape b true) 1
    = SILExtInfoBuilder.withNoEscape
        (SILExtInfoBuilder.withDifferentiabilityKind b 1) true
  ∧ SILExtInfoBuilder.withRepresentation
      (SILExtInfoBuilder.withRepresentation b SILFunctionTypeRepresentation.Closure)
      SILFunctionTypeRepresentation.Thick
    = SILExtInfoBuilder.withRepresentation b SILFunctionTypeRepresentation.Thick
  ∧ SILExtInfoBuilder.withIsPseudogeneric
      (SILExtInfoBuilder.withIsPseudogeneric b true) false
    = SILExtInfoBuilder.withIsPseudogeneric b false
  ∧ SILExtInfoBuilder.withDifferentiabilityKind
      (SILExtInfoBuilder.withDifferentiabilityKind b 2) 1
    = SILExtInfoBuilder.withDifferentiabilityKind b 1.
Proof.
  pose proof (SILExtInfoFacts.sil_with_methods_compose sampleSILBuilder
                SILFunctionTypeRepresentation.Thick
                SILFunctionTypeRepresentation.Closure false true true false 1 2)
    as (_ & _ & Hrd & _ & _ & Hnd & Hrr & Hpp & _ & Hdd & _);
    [vm_compute; split; [discriminate | reflexivity] | lia | lia |].
  cbv zeta.
  split; [exact Hrd|]. split; [exact Hnd|]. split; [exact Hrr|].
  split; [exact Hpp|]. apply Hdd. lia.
Defined.

(** The earlier differentiability kind shows through when it does not fit
    its field: after the kind 5, the kind 1 reads back as 1, and the bits
    are not those of the builder that was given the kind 1 only. *)
Example sil_differentiability_kind_leaves_bits :
  let b := SILExtInfoBuilder.withDifferentiabilityKind
             (SILExtInfoBuilder.withDifferentiabilityKind sampleSILBuilder 5) 1 in
  SILExtInfoBuilder.getDifferentiabilityKind b = 1%Z
  ∧ SILExtInfoBuilder.bits b = 344%Z
  ∧ SILExtInfoBuilder.bits (SILExtInfoBuilder.withDifferentiabilityKind sampleSILBuilder 1) = 88%Z.
Proof. vm_compute. repeat split. Qed.

Lemma ast_make_round_trip_witness :
  let b := ASTExtInfoBuilder.mk 147 (Some 1%N) in
  ASTExtInfoBuilder.getRepresentation b
  = Some FunctionTypeRepresentation.CFunctionPointer
  ∧ ASTExtInfoBuilder.isNoEscape b = true
  ∧ ASTExtInfoBuilder.async b = false
  ∧ ASTExtInfoBuilder.throws b = false
  ∧ ASTExtInfoBuilder.getDifferentiabilityKind b = (1 mod 4)%Z
  ∧ ASTExtInfoBuilder.getClangTypeInfo b = Some 1%N
  ∧ Z.shiftr (ASTExtInfoBuilder.bits b) ASTExtInfoBuilder.NumMaskBits = 0%Z.
Proof.
  apply (ASTExtInfoFacts.ast_make_round_trip sampleIsFunctionType
           FunctionTypeRepresentation.CFunctionPointer true false 1
           (Some 1%N) (ASTExtInfoBuilder.mk 147 (Some 1%N))).
  reflexivity.
Defined.

Lemma ast_flag_chain_witness :
  let b3 := ASTExtInfoBuilder.mk 51 (Some 1%N) in
  ASTExtInfoBuilder.isNoEscape b3 = true
  ∧ ASTExtInfoBuilder.async b3 = true
  ∧ ASTExtInfoBuilder.throws b3 = false
  ∧ ASTExtInfoBuilder.getRepresentation b3
    = ASTExtInfoBuilder.getRepresentation sampleASTBuilder
  ∧ ASTExtInfoBuilder.getDifferentiabilityKind b3
    = ASTExtInfoBuilder.getDifferentiabilityKind sampleASTBuilder
  ∧ ASTExtInfoBuilder.getClangTypeInfo b3
    = ASTExtInfoBuilder.getClangTypeInfo sampleASTBuilder.
Proof.
  apply (ASTExtInfoFacts.ast_flag_chain sampleIsFunctionType sampleASTBuilder
           true true false
           (ASTExtInfoBuilder.mk 19 (Some 1%N))
           (ASTExtInfoBuilder.mk 51 (Some 1%N))
           (ASTExtInfoBuilder.mk 51 (Some 1%N))); reflexivity.
Defined.

Lemma ast_flags_never_trip_witness :
  is_Some (ASTExtInfoBuilder.withNoEscape sampleIsFunctionType
             sampleASTBuilder true)
  ∧ is_Some (ASTExtInfoBuilder.withAsync sampleIsFunctionType
               sampleASTBuilder true)
  ∧ is_Some (ASTExtInfoBuilder.withThrows sampleIsFunctionType
               sampleASTBuilder true)
  ∧ is_Some (ASTExtInfoBuilder.withDifferentiabilityKind sampleIsFunctionType
               sampleASTBuilder 1)
  ∧ (ASTExtInfoBuilder.clangTypeInfo sampleASTBuilder = None →
     is_Some (ASTExtInfoBuilder.withRepresentation sampleIsFunctionType
                sampleASTBuilder FunctionTypeRepresentation.Swift)).
Proof.
  apply (ASTExtInfoFacts.ast_flags_never_trip sampleIsFunctionType
           sampleASTBuilder true 1 FunctionTypeRepresentation.Swift).
  exists sampleASTBuilder. reflexivity.
Defined.

Lemma ast_and_sil_representations_agree_witness :
  let b' := ASTExtInfoBuilder.mk 1 (Some 1%N) in
  ASTExtInfoBuilder.getRepresentation b'
  = Some FunctionTypeRepresentation.Block
  ∧ ∃ srep, ASTExtInfoBuilder.getSILRepresentation b' = Some srep
            ∧ SILFunctionTypeRepresentation.raw srep
              = FunctionTypeRepresentation.raw
                  FunctionTypeRepresentation.Block
            ∧ (SILFunctionTypeRepresentation.raw srep
               < SILFunctionTypeRepresentation.FirstSIL)%Z.
Proof.
  apply (ASTExtInfoFacts.ast_and_sil_representations_agree
           sampleIsFunctionType sampleASTBuilder
           FunctionTypeRepresentation.Block
           (ASTExtInfoBuilder.mk 1 (Some 1%N))).
  reflexivity.
Defined.

Lemma ast_with_sil_representation_witness :
  let b' := ASTExtInfoBuilder.mk 8 (Some 1%N) in
  ASTExtInfoBuilder.getSILRepresentation b'
  = Some SILFunctionTypeRepresentation.Method
  ∧ (ASTExtInfoBuilder.getRepresentation b' = None
     ↔ (SILFunctionTypeRepresentation.FirstSIL
        ≤ SILFunctionTypeRepresentation.raw
            SILFunctionTypeRepresentation.Method)%Z).
Proof.
  apply (ASTExtInfoFacts.ast_with_sil_representation sampleIsFunctionType
           sampleASTBuilder SILFunctionTypeRepresentation.Method
           (ASTExtInfoBuilder.mk 8 (Some 1%N))).
  reflexivity.
Defined.

Lemma clang_record_iff_in_schema_witness :
  (is_Some (encodeResult (H := sampleTypes) EmitPCM
              [(40%N, Blob "DIAG"); (30%N, Blob "PCM")])
   ↔ ∀ k, k ∈ [(40%N, Blob "DIAG"); (30%N, Blob "PCM")].*1 →
          inClangSchema (H := sampleTypes) k)
  ∧ ∀ rec, encodeResult (H := sampleTypes) EmitPCM
             [(40%N, Blob "DIAG"); (30%N, Blob "PCM")] = Some rec →
      ∃ l, rec = ClangResult l
           ∧ l.*2 = (llvm_sort [(40%N, Blob "DIAG"); (30%N, Blob "PCM")]).*2.
Proof.
  apply (clang_record_iff_in_schema (H := sampleTypes)
           [(40%N, Blob "DIAG"); (30%N, Blob "PCM")]).
Defined.
